(** * cpp_progress_bar: a console progress indicator

    A shallow embedding of [progress_bar.cpp] and the properties of its
    throttle, renderer, geometry calculator and duration beautifier.

    Integers of the program are [Z] with the wrap-around of [uint64_t] and
    [size_t] written out.  A finite [double] is the exact rational it
    denotes; every floating-point operation is the exact operation followed
    by rounding to the nearest binary64 value, ties to even, with gradual
    underflow.  Strings are [string]; what a call writes to the output stream
    and which frames it renders is the trace it returns.  A call that stops
    at an [assert], divides an integer by zero or converts a [double] to an
    integer type that cannot hold it ends in a [Fault].

    The build modelled is the one with assertions enabled, on a POSIX
    terminal, with the calls of the host one after the other: the mutex and
    the atomic counter order concurrent calls and are not modelled.  The
    clock, the terminal width and the answer of [to_terminal] are inputs of
    each call; the C library's [log10] is a parameter. *)

From Stdlib Require Import ZArith QArith Qround Qabs Qreduction Qpower Qcanon.
From Stdlib Require Import Lqa.
From Stdlib Require Import String Ascii List Bool Lia.
From Stdlib Require Import DecimalString SpecFloat.
Import ListNotations.

Local Open Scope Z_scope.

(** ** Machine integers *)

Module Int.

Definition two64 : Z := 2 ^ 64.

(** Arithmetic on [uint64_t] and [size_t] is modulo [2^64]. *)
Definition wrap64 (z : Z) : Z := z mod two64.

Definition in_u64 (z : Z) : Prop := 0 <= z < two64.

Definition int_min : Z := - 2 ^ 31.
Definition int_max : Z := 2 ^ 31 - 1.
Definition long_min : Z := - 2 ^ 63.
Definition long_max : Z := 2 ^ 63 - 1.

End Int.

(** ** Binary64 arithmetic *)

Module Double.

(** [n / d] rounded to the nearest integer, ties to the even one ([0 < d]). *)
Definition rne_div (n d : Z) : Z :=
  let q := n / d in
  match 2 * (n mod d) ?= d with
  | Lt => q
  | Gt => q + 1
  | Eq => if Z.even q then q else q + 1
  end.

Definition pow2 (e : Z) : Q :=
  if 0 <=? e then inject_Z (2 ^ e) else 1 # Z.to_pos (2 ^ (- e)).

(** [floor (log2 (n / d))] for [0 < n]. *)
Definition ilog2 (n : Z) (d : positive) : Z :=
  let e0 := Z.log2 n - Z.log2 (Zpos d) in
  if (if 0 <=? e0 then 2 ^ e0 * Zpos d <=? n else Zpos d <=? n * 2 ^ (- e0))
  then e0 else e0 - 1.

(** Exponent of the unit in the last place of a 53-bit significand, with the
    gradual underflow of binary64 below [2^-1022]. *)
Definition ulp_exp (n : Z) (d : positive) : Z :=
  Z.max (ilog2 n d - 52) (- 1074).

Definition scale_num (n ex : Z) : Z := if 0 <=? ex then n else n * 2 ^ (- ex).
Definition scale_den (d : positive) (ex : Z) : Z :=
  if 0 <=? ex then Zpos d * 2 ^ ex else Zpos d.

(** The binary64 value nearest to [n / d], for [0 < n]. *)
Definition round_pos (n : Z) (d : positive) : Q :=
  let ex := ulp_exp n d in
  Qred (inject_Z (rne_div (scale_num n ex) (scale_den d ex)) * pow2 ex).

(** Rounding of an exact result to binary64.  Results of magnitude [2^1024]
    and above, which binary64 turns into an infinity, are outside this model:
    no quantity of the program comes near them. *)
Definition round (q : Q) : Q :=
  match Qnum q with
  | Z0 => 0%Q
  | Zpos _ => round_pos (Qnum q) (Qden q)
  | Zneg _ => Qopp (round_pos (- Qnum q) (Qden q))
  end.

Definition add (a b : Q) : Q := round (a + b).
Definition sub (a b : Q) : Q := round (a - b).
Definition mul (a b : Q) : Q := round (a * b).
Definition div (a b : Q) : Q := round (a / b).

(** [static_cast<double>] of an integer. *)
Definition of_Z (z : Z) : Q := round (inject_Z z).

(** A literal of the source text denotes the nearest binary64 value. *)
Definition lit (q : Q) : Q := round q.

Definition eqb (a b : Q) : bool := Qeq_bool a b.
Definition leb (a b : Q) : bool := Qle_bool a b.

(** [std::floor]. *)
Definition floor (a : Q) : Q := inject_Z (Qfloor a).

(** Conversion to an integer type truncates toward zero. *)
Definition trunc (a : Q) : Z := Z.quot (Qnum a) (Zpos (Qden a)).

(** The conversion is defined only when the truncated value fits the
    destination type. *)
Definition to_integer (lo hi : Z) (a : Q) : option Z :=
  let z := trunc a in
  if (lo <=? z) && (z <=? hi) then Some z else None.

Definition to_int : Q -> option Z := to_integer Int.int_min Int.int_max.
Definition to_long : Q -> option Z := to_integer Int.long_min Int.long_max.
Definition to_size_t : Q -> option Z := to_integer 0 (Int.two64 - 1).

End Double.

(** ** Text *)

Module Text.

Local Open Scope string_scope.

(** [std::string(n, c)]. *)
Fixpoint fill (n : nat) (c : ascii) : string :=
  match n with
  | O => EmptyString
  | S k => String c (fill k c)
  end.

(** [std::to_string] and [operator<<] of an integer. *)
Definition dec (z : Z) : string := NilZero.string_of_int (Z.to_int z).

(** Output in a field of width [w] with fill character [c]: short text is
    padded on the left, long text is left alone. *)
Definition pad_left (w : nat) (c : ascii) (s : string) : string :=
  fill (w - String.length s) c ++ s.

Definition take (n : nat) (s : string) : string := substring 0 n s.
Definition drop (n : nat) (s : string) : string :=
  substring n (String.length s - n) s.

(** [std::string::resize(n, c)]. *)
Definition resize (n : nat) (c : ascii) (s : string) : string :=
  take n s ++ fill (n - String.length s) c.

(** [std::string::pop_back]. *)
Definition pop_back (s : string) : string := take (String.length s - 1) s.

Fixpoint rev_onto (s acc : string) : string :=
  match s with
  | EmptyString => acc
  | String c r => rev_onto r (String c acc)
  end.

Fixpoint drop_zeros (s : string) : string :=
  match s with
  | String "0"%char r => drop_zeros r
  | _ => s
  end.

Definition strip_trailing_zeros (s : string) : string :=
  rev_onto (drop_zeros (rev_onto s "")) "".

(** *** printf conversions *)

Definition sign_of (x : Q) : string :=
  if (Qnum x <? 0)%Z then "-" else "".

(** ["%.1f"]: the exact value rounded to one decimal, ties to even. *)
Definition fixed1 (x : Q) : string :=
  let t := Double.rne_div (Z.abs (Qnum x) * 10) (Zpos (Qden x)) in
  sign_of x ++ dec (t / 10) ++ "." ++ dec (t mod 10).

(** ["%5.1f%%"]. *)
Definition percent_5_1 (x : Q) : string :=
  pad_left 5 " " (fixed1 x) ++ "%".

(** [snprintf(buf, size, ...)] writes at most [size - 1] characters of the
    formatted text at the start of [buf] and a NUL after them; the rest of
    [buf] is not touched. *)
Definition snprintf (buf : string) (size : nat) (text : string) : string :=
  match size with
  | O => buf
  | S m =>
      let k := Nat.min (String.length text) m in
      take k text ++ String zero (drop (S k) buf)
  end.

(** [floor (log10 n)] for [0 < n]: one less than the number of digits. *)
Definition zlog10 (n : Z) : Z := (Z.of_nat (String.length (dec n)) - 1)%Z.

(** [floor (log10 (n / d))] for [0 < n]. *)
Definition ilog10 (n : Z) (d : positive) : Z :=
  let e0 := (zlog10 n - zlog10 (Zpos d))%Z in
  if (if 0 <=? e0 then 10 ^ e0 * Zpos d <=? n else Zpos d <=? n * 10 ^ (- e0))%Z
  then e0 else (e0 - 1)%Z.

(** [n / d] scaled by [10^-k] and rounded to an integer, ties to even. *)
Definition scaled10 (n : Z) (d : positive) (k : Z) : Z :=
  if (0 <=? k)%Z then Double.rne_div n (Zpos d * 10 ^ k)
  else Double.rne_div (n * 10 ^ (- k)) (Zpos d).

(** ["%g"] with the default precision 6, the format [operator<<] gives a
    [double] on a stream whose float flags were not changed: six significant
    digits, trailing zeros removed, exponent form when the decimal exponent
    is below -4 or at least 6. *)
Definition general6 (x : Q) : string :=
  match Qnum x with
  | Z0 => "0"
  | _ =>
      let n := Z.abs (Qnum x) in
      let d := Qden x in
      let e0 := ilog10 n d in
      let m0 := scaled10 n d (e0 - 5) in
      let '(e, m) := if (m0 =? 10 ^ 6)%Z then ((e0 + 1)%Z, (10 ^ 5)%Z) else (e0, m0) in
      let ds := dec m in
      sign_of x ++
      (if ((e <? -4) || (6 <=? e))%Z then
         let rest := strip_trailing_zeros (drop 1 ds) in
         take 1 ds ++ (if String.eqb rest "" then "" else "." ++ rest) ++
         "e" ++ (if (e <? 0)%Z then "-" else "+") ++ pad_left 2 "0" (dec (Z.abs e))
       else if (0 <=? e)%Z then
         let k := S (Z.to_nat e) in
         let frac := strip_trailing_zeros (drop k ds) in
         take k ds ++ (if String.eqb frac "" then "" else "." ++ frac)
       else
         "0." ++ fill (Z.to_nat (- e - 1)) "0" ++ strip_trailing_zeros ds)
  end.

End Text.

(** ** Observable behaviour *)

(** What a call does besides returning: the frames it starts to render and
    the bytes it writes to the output stream, in order. *)
Inductive event : Type :=
| Render (progress : Z)
| Write (bytes : string).

(** The ways a call can fail to return. *)
Inductive fault : Type :=
| OverflowAssert        (* assert(after_update <= total_) *)
| RatioAssert           (* assert(progress_ratio >= 0.0), assert(progress_ratio <= 1.0) *)
| DivideByZero          (* integer division by a zero frequency_update *)
| ConversionOutOfRange. (* a double converted to an integer type that cannot hold it *)

Inductive outcome (A : Type) : Type :=
| Done (a : A)
| Fault (f : fault).

Arguments Done {A} a.
Arguments Fault {A} f.

Definition M (A : Type) : Type := (list event * outcome A)%type.

Definition ret {A} (a : A) : M A := ([], Done a).
Definition fail {A} (f : fault) : M A := ([], Fault f).
Definition emit (e : event) : M unit := ([e], Done tt).

Definition bind {A B} (m : M A) (k : A -> M B) : M B :=
  match m with
  | (t, Done a) => let '(t', r) := k a in (t ++ t', r)
  | (t, Fault f) => (t, Fault f)
  end.

Notation "x <- m ;; k" := (bind m (fun x => k))
  (at level 61, m at next level, right associativity).
Notation "m ;;; k" := (bind m (fun _ => k))
  (at level 61, right associativity).

(** A conversion whose result does not fit is undefined. *)
Definition defined {A} (o : option A) : M A :=
  match o with
  | Some a => ret a
  | None => fail ConversionOutOfRange
  end.

Definition trace_of {A} (m : M A) : list event := fst m.
Definition result_of {A} (m : M A) : outcome A := snd m.

(** The bytes a trace writes to the stream. *)
Fixpoint written (t : list event) : string :=
  match t with
  | [] => EmptyString
  | Write s :: r => (s ++ written r)%string
  | Render _ :: r => written r
  end.

(** The frames a trace renders. *)
Fixpoint renders (t : list event) : list Z :=
  match t with
  | [] => []
  | Render p :: r => p :: renders r
  | Write _ :: r => renders r
  end.

(** ** The progress bar *)

Definition kMessageSize : nat := 20.
Definition kTotalPercentage : Q := 100.
Definition kCharacterWidthPercentage : nat := 7.
Definition kDefaultConsoleWidth : Z := 100.
Definition kMaxBarWidth : Z := 120.

Record ProgressBar : Type := {
  silent_ : bool;
  total_ : Z;
  progress_ : Z;
  frequency_update : Z;
  description_ : string;
  unit_bar_ : ascii;
  unit_space_ : ascii;
  logging_mode_ : bool;
  buffer_ : string;
  start_time_ : Z
}.

Definition set_progress (v : Z) (b : ProgressBar) : ProgressBar :=
  {| silent_ := silent_ b; total_ := total_ b; progress_ := v;
     frequency_update := frequency_update b; description_ := description_ b;
     unit_bar_ := unit_bar_ b; unit_space_ := unit_space_ b;
     logging_mode_ := logging_mode_ b; buffer_ := buffer_ b;
     start_time_ := start_time_ b |}.

Definition set_frequency_update (v : Z) (b : ProgressBar) : ProgressBar :=
  {| silent_ := silent_ b; total_ := total_ b; progress_ := progress_ b;
     frequency_update := v; description_ := description_ b;
     unit_bar_ := unit_bar_ b; unit_space_ := unit_space_ b;
     logging_mode_ := logging_mode_ b; buffer_ := buffer_ b;
     start_time_ := start_time_ b |}.

Definition set_description (v : string) (b : ProgressBar) : ProgressBar :=
  {| silent_ := silent_ b; total_ := total_ b; progress_ := progress_ b;
     frequency_update := frequency_update b; description_ := v;
     unit_bar_ := unit_bar_ b; unit_space_ := unit_space_ b;
     logging_mode_ := logging_mode_ b; buffer_ := buffer_ b;
     start_time_ := start_time_ b |}.

Definition set_units (bar space : ascii) (b : ProgressBar) : ProgressBar :=
  {| silent_ := silent_ b; total_ := total_ b; progress_ := progress_ b;
     frequency_update := frequency_update b; description_ := description_ b;
     unit_bar_ := bar; unit_space_ := space;
     logging_mode_ := logging_mode_ b; buffer_ := buffer_ b;
     start_time_ := start_time_ b |}.

Definition set_logging_mode (v : bool) (b : ProgressBar) : ProgressBar :=
  {| silent_ := silent_ b; total_ := total_ b; progress_ := progress_ b;
     frequency_update := frequency_update b; description_ := description_ b;
     unit_bar_ := unit_bar_ b; unit_space_ := unit_space_ b;
     logging_mode_ := v; buffer_ := buffer_ b;
     start_time_ := start_time_ b |}.

Definition set_buffer (v : string) (b : ProgressBar) : ProgressBar :=
  {| silent_ := silent_ b; total_ := total_ b; progress_ := progress_ b;
     frequency_update := frequency_update b; description_ := description_ b;
     unit_bar_ := unit_bar_ b; unit_space_ := unit_space_ b;
     logging_mode_ := logging_mode_ b; buffer_ := v;
     start_time_ := start_time_ b |}.

Definition set_start_time (v : Z) (b : ProgressBar) : ProgressBar :=
  {| silent_ := silent_ b; total_ := total_ b; progress_ := progress_ b;
     frequency_update := frequency_update b; description_ := description_ b;
     unit_bar_ := unit_bar_ b; unit_space_ := unit_space_ b;
     logging_mode_ := logging_mode_ b; buffer_ := buffer_ b;
     start_time_ := v |}.

(** What a call reads from the platform: the terminal width ([None] when the
    [ioctl] query fails) and the readings of [system_clock::now()], in
    nanoseconds since the epoch, at the three places that read it. *)
Record env : Type := {
  ws_col : option Z;
  now_start : Z;
  now_stamp : Z;
  local_stamp : string;
  now_eta : Z
}.

Definition CR : string := String (ascii_of_nat 13) EmptyString.
Definition LF : string := String (ascii_of_nat 10) EmptyString.
Definition TAB : string := String (ascii_of_nat 9) EmptyString.

Section Platform.

(** [std::log10] of the C library, on finite positive arguments. *)
Variable libm_log10 : Q -> Q.

Local Open Scope string_scope.

Definition GetConsoleWidth (e : env) : Z :=
  match ws_col e with
  | Some w => w
  | None => kDefaultConsoleWidth
  end.

(** The subtraction is done in [int] up to [description_.size()], in
    [size_t] (modulo [2^64]) from there, and in [double] for the last term;
    the result is converted back to [int]. *)
Definition GetBarLength (e : env) (b : ProgressBar) : option Z :=
  let w := Z.min (GetConsoleWidth e) kMaxBarWidth - 9 in
  let u := Int.wrap64 (w - Z.of_nat (String.length (description_ b))) in
  let u := Int.wrap64 (u - Z.of_nat kCharacterWidthPercentage) in
  let digits :=
    Double.floor
      (Double.add (libm_log10 (Double.of_Z (Z.max 2 (total_ b)))) 1) in
  Double.to_int (Double.sub (Double.of_Z u) (Double.mul digits 2)).

Definition get_progress_summary (progress_ratio : Q) : string :=
  let buffer := Text.fill kCharacterWidthPercentage " " in
  let buffer :=
    Text.snprintf buffer kCharacterWidthPercentage
      (Text.percent_5_1 (Double.mul progress_ratio kTotalPercentage)) in
  Text.pop_back buffer.

(** [diff.count()]: the nanoseconds between two clock readings as seconds in
    a [double]. *)
Definition elapsed_seconds (now start : Z) : Q :=
  Double.div (Double.of_Z (now - start)) 1000000000.

(** The body of [RemainingExecutionTime] once the clock is read. *)
Definition remaining_after (elapsed progress_ratio : Q) : Q :=
  let progress_ratio :=
    if Double.eqb progress_ratio 0 then Double.lit (1 # 100)
    else progress_ratio in
  let total_s := Double.mul (Double.div 1 progress_ratio) elapsed in
  Double.sub total_s (Double.mul progress_ratio total_s).

Definition RemainingExecutionTime
    (e : env) (b : ProgressBar) (progress_ratio : Q) : Q :=
  remaining_after (elapsed_seconds (now_eta e) (start_time_ b)) progress_ratio.

Definition BeautifyDuration (input_seconds : Q) : M string :=
  d <- defined (Double.to_int (Double.div input_seconds 86400)) ;;
  let input_seconds :=
    Double.sub input_seconds (Double.mul (Double.of_Z d) 86400) in
  h <- defined (Double.to_long (Double.div input_seconds 3600)) ;;
  let input_seconds :=
    Double.sub input_seconds (Double.mul (Double.of_Z h) 3600) in
  m <- defined (Double.to_long (Double.div input_seconds 60)) ;;
  let input_seconds :=
    Double.sub input_seconds (Double.mul (Double.of_Z m) 60) in
  let dc := negb (d =? 0)%Z in
  let hc := negb (h =? 0)%Z in
  let mc := negb (m =? 0)%Z in
  let w2 (on : bool) (s : string) := if on then Text.pad_left 2 "0" s else s in
  ret ((if dc then Text.dec d ++ "d" else "") ++
       (if dc || hc then w2 dc (Text.dec h) ++ "h" else "") ++
       (if dc || hc || mc then w2 (dc || hc) (Text.dec m) ++ "m" else "") ++
       w2 (dc || hc || mc) (Text.general6 input_seconds) ++ "s").

(** The share of the work that is done, as [ShowProgress] computes it. *)
Definition ratio_of (progress total : Z) : Q :=
  if (total =? 0)%Z then 1%Q
  else Double.div (Double.of_Z progress) (Double.of_Z total).

(** The counter, the remaining time and the closing word of a line. *)
Definition tail_text (progress : Z) (b : ProgressBar) (eta : string) : string :=
  ", " ++ Text.dec progress ++ "/" ++ Text.dec (total_ b) ++
  ", " ++ eta ++ " remaining".

Definition ShowProgress (e : env) (progress : Z) (b : ProgressBar)
  : M ProgressBar :=
  if silent_ b then ret b else
  emit (Render progress) ;;;
  let progress_ratio := ratio_of progress (total_ b) in
  if negb (Double.leb 0 progress_ratio) then fail RatioAssert else
  if negb (Double.leb progress_ratio 1) then fail RatioAssert else
  if logging_mode_ b then
    let ms := Z.rem (Z.quot (now_stamp e) 1000000) 1000 in
    eta <- BeautifyDuration (RemainingExecutionTime e b progress_ratio) ;;
    emit (Write ("[" ++ local_stamp e ++ "." ++ Text.pad_left 3 "0" (Text.dec ms)
                 ++ "]" ++ TAB ++ get_progress_summary progress_ratio
                 ++ tail_text progress b eta ++ LF)) ;;;
    ret b
  else
    emit (Write (Text.fill (String.length (buffer_ b)) " " ++ CR)) ;;;
    let b := set_buffer "" b in
    bar_size <- defined (GetBarLength e b) ;;
    if (bar_size <? 1)%Z then ret b else
    filled <- defined (Double.to_size_t
                         (Double.mul (Double.of_Z bar_size) progress_ratio)) ;;
    eta <- BeautifyDuration (RemainingExecutionTime e b progress_ratio) ;;
    let text :=
      " " ++ description_ b ++ " [" ++
      Text.fill (Z.to_nat filled) (unit_bar_ b) ++
      Text.fill (Z.to_nat (Int.wrap64 (bar_size - filled))) (unit_space_ b) ++
      "] " ++ get_progress_summary progress_ratio ++
      tail_text progress b eta ++ CR in
    emit (Write text) ;;;
    ret (set_buffer text b).

(** [operator+=]. *)
Definition add_assign (e : env) (delta : Z) (b : ProgressBar) : M ProgressBar :=
  let b :=
    if (progress_ b =? 0)%Z then set_start_time (now_start e) b else b in
  if silent_ b || (delta =? 0)%Z then ret b else
  let after_update := Int.wrap64 (progress_ b + delta) in
  let b := set_progress after_update b in
  if negb (after_update <=? total_ b)%Z then fail OverflowAssert else
  show <- (if (after_update =? total_ b)%Z then ret true
           else if (frequency_update b =? 0)%Z then fail DivideByZero
           else ret (Int.wrap64 (after_update - delta) / frequency_update b
                     <? after_update / frequency_update b)%Z) ;;
  b <- (if show : bool then ShowProgress e after_update b else ret b) ;;
  (if (after_update =? total_ b)%Z then emit (Write LF) else ret tt) ;;;
  ret b.

(** [operator++]. *)
Definition increment (e : env) (b : ProgressBar) : M ProgressBar :=
  add_assign e 1 b.

Definition SetFrequencyUpdate (frequency_update_ : Z) (b : ProgressBar)
  : ProgressBar :=
  if (total_ b <? frequency_update_)%Z
  then set_frequency_update (total_ b) b
  else set_frequency_update frequency_update_ b.

Definition SetStyle (unit_bar unit_space : ascii) (b : ProgressBar)
  : ProgressBar :=
  set_units unit_bar unit_space b.

(** Modelled from the spec: the member initialisers of the class declaration
    in [progress_bar.hpp], which is not part of the sources.  The counter
    starts at zero, the bar is drawn with ['='] and [' '], no text has been
    rendered yet; the members the constructor does not assign on its silent
    path keep what the storage [raw] holds. *)
Definition declared (raw : ProgressBar) : ProgressBar :=
  {| silent_ := silent_ raw; total_ := total_ raw; progress_ := 0;
     frequency_update := frequency_update raw;
     description_ := description_ raw;
     unit_bar_ := "="; unit_space_ := " ";
     logging_mode_ := logging_mode_ raw; buffer_ := "";
     start_time_ := start_time_ raw |}.

(** The constructor; [tty] is the answer of [to_terminal] for the stream. *)
Definition construct (raw : ProgressBar) (e : env) (total : Z)
    (description : string) (tty silent : bool) : M ProgressBar :=
  let b := declared raw in
  let b :=
    {| silent_ := silent; total_ := total; progress_ := progress_ b;
       frequency_update := frequency_update b; description_ := description;
       unit_bar_ := unit_bar_ b; unit_space_ := unit_space_ b;
       logging_mode_ := logging_mode_ b; buffer_ := buffer_ b;
       start_time_ := start_time_ b |} in
  if silent then ret b else
  let b := set_frequency_update (Z.max 1 (total / 1000)) b in
  let b := set_logging_mode (negb tty) b in
  (if logging_mode_ b then emit (Write (description_ b ++ LF)) else ret tt) ;;;
  let b := set_description (Text.resize kMessageSize " " (description_ b)) b in
  b <- ShowProgress e 0 b ;;
  (if (progress_ b =? total_ b)%Z then emit (Write LF) else ret tt) ;;;
  ret b.

(** The destructor. *)
Definition destruct_bar (e : env) (b : ProgressBar) : M unit :=
  if negb (progress_ b =? total_ b)%Z then
    b <- ShowProgress e (progress_ b) b ;;
    if negb (silent_ b) then emit (Write LF) else ret tt
  else ret tt.

(** *** Use by a host program *)

Inductive call : Type :=
| AddAssign (e : env) (delta : Z)
| Increment (e : env)
| CallSetFrequencyUpdate (n : Z)
| CallSetStyle (unit_bar unit_space : ascii).

Definition perform (c : call) (b : ProgressBar) : M ProgressBar :=
  match c with
  | AddAssign e delta => add_assign e delta b
  | Increment e => increment e b
  | CallSetFrequencyUpdate n => ret (SetFrequencyUpdate n b)
  | CallSetStyle u s => ret (SetStyle u s b)
  end.

Fixpoint drive (cs : list call) (b : ProgressBar) : M ProgressBar :=
  match cs with
  | [] => ret b
  | c :: rest => b' <- perform c b ;; drive rest b'
  end.

(** A bar from its construction through the calls of the host. *)
Definition session (raw : ProgressBar) (e0 : env) (total : Z)
    (description : string) (tty silent : bool) (cs : list call)
  : M ProgressBar :=
  b <- construct raw e0 total description tty silent ;;
  drive cs b.

(** A bar from construction to destruction. *)
Definition lifetime (raw : ProgressBar) (e0 : env) (total : Z)
    (description : string) (tty silent : bool) (cs : list call) (e1 : env)
  : M unit :=
  b <- session raw e0 total description tty silent cs ;;
  destruct_bar e1 b.

End Platform.

(** ** Sample inputs *)

(** A stand-in for the C library's [log10]: exact on powers of ten, rounded
    down elsewhere. *)
Definition coarse_log10 (x : Q) : Q := inject_Z (Text.zlog10 (Qfloor x)).

Definition sample_env : env :=
  {| ws_col := Some 80;
     now_start := 1000000000000;
     now_stamp := 1000123456789;
     local_stamp := "2026-01-01 00:00:01";
     now_eta := 1010000000000 |}.

Definition sample_bar : ProgressBar :=
  {| silent_ := false; total_ := 10; progress_ := 4; frequency_update := 3;
     description_ := "work                ";
     unit_bar_ := "="; unit_space_ := " ";
     logging_mode_ := false; buffer_ := ""; start_time_ := 1000000000000 |}.

Definition sample_silent_bar : ProgressBar :=
  {| silent_ := true; total_ := 10; progress_ := 0; frequency_update := 0;
     description_ := "work";
     unit_bar_ := "="; unit_space_ := " ";
     logging_mode_ := false; buffer_ := ""; start_time_ := 0 |}.

(** ** Well-formed states *)

(** The unsigned members hold values of their type. *)
Definition wf (b : ProgressBar) : Prop :=
  Int.in_u64 (total_ b) /\ Int.in_u64 (progress_ b) /\
  Int.in_u64 (frequency_update b).

(** The counter never exceeds the total. *)
Definition bounded (b : ProgressBar) : Prop :=
  0 <= progress_ b <= total_ b.

(** ** Auxiliary notions *)

(** A state that differs from [b] at most in the remembered text. *)
Definition redrawn (b b' : ProgressBar) : Prop :=
  exists s, b' = set_buffer s b.

(** The bar as [operator+=] sees it after the start time is stored. *)
Definition started (e : env) (b : ProgressBar) : ProgressBar :=
  if progress_ b =? 0 then set_start_time (now_start e) b else b.

(** The counter advances by [delta] in a call of [operator+=]. *)
Definition counter_advances (libm_log10 : Q -> Q) (e : env) (delta : Z)
    (b : ProgressBar) : Prop :=
  exists b', result_of (add_assign libm_log10 e delta b) = Done b' /\
             progress_ b' = Int.wrap64 (progress_ b + delta).

(** A host that only increments: each increment with what it reads from the
    platform. *)
Definition increments (ds : list (env * Z)) : list call :=
  map (fun ed => AddAssign (fst ed) (snd ed)) ds.




Definition sample_increments : list (env * Z) :=
  [(sample_env, 3); (sample_env, 1); (sample_env, 6)].

(** What every call keeps: the total, and the count within it. *)
Definition keeps (b : ProgressBar) (m : M ProgressBar) : Prop :=
  (forall p, In p (renders (trace_of m)) -> 0 <= p <= total_ b) /\
  result_of m <> Fault RatioAssert /\
  (forall b', result_of m = Done b' -> bounded b' /\ total_ b' = total_ b).

(** The percentage text has seven characters. *)
Definition summary_has_seven_characters (progress_ratio : Q) : Prop :=
  String.length (get_progress_summary progress_ratio) = 7%nat.

(** The number of digits of the total, as [GetBarLength] computes it. *)
Definition digits_of_total (libm_log10 : Q -> Q) (total : Z) : Q :=
  Double.floor (Double.add (libm_log10 (Double.of_Z (Z.max 2 total))) 1).

(** The bar width of the spec, on the integers and the rationals:
    [min(consoleWidth, 120) - 9 - len(description) - 7
     - 2 * floor(log10(max(total, 2)) + 1)]. *)
Definition bar_width (libm_log10 : Q -> Q) (e : env) (b : ProgressBar) : Q :=
  inject_Z (Z.min (GetConsoleWidth e) kMaxBarWidth - 9
            - Z.of_nat (String.length (description_ b))
            - Z.of_nat kCharacterWidthPercentage)
  - 2 * digits_of_total libm_log10 (total_ b).

(** Nothing is drawn for the frame, and the call returns. *)
Definition frame_draws_nothing (libm_log10 : Q -> Q) (e : env) (p : Z)
    (b : ProgressBar) : Prop :=
  written (trace_of (ShowProgress libm_log10 e p b)) = EmptyString /\
  exists b', result_of (ShowProgress libm_log10 e p b) = Done b'.

Definition narrow_env : env :=
  {| ws_col := Some 40;
     now_start := 1000000000000;
     now_stamp := 1000123456789;
     local_stamp := "2026-01-01 00:00:01";
     now_eta := 1010000000000 |}.

Definition tiny_env : env :=
  {| ws_col := Some 30;
     now_start := 1000000000000;
     now_stamp := 1000123456789;
     local_stamp := "2026-01-01 00:00:01";
     now_eta := 1010000000000 |}.

Definition long_bar : ProgressBar :=
  {| silent_ := false; total_ := 10 ^ 18; progress_ := 4;
     frequency_update := 10 ^ 15;
     description_ := "work                ";
     unit_bar_ := "="; unit_space_ := " ";
     logging_mode_ := false; buffer_ := "old text";
     start_time_ := 1000000000000 |}.

(** The text of a duration after the words of the spec: the units from the
    largest to the smallest, a unit left out while it and all larger ones are
    zero, every unit after the first one shown padded with a zero to two
    digits, the seconds always shown. *)
Fixpoint units_text (shown : bool) (units : list (Z * string))
    (seconds : string) : string :=
  match units with
  | [] => (if shown then Text.pad_left 2 "0" seconds else seconds) ++ "s"
  | (v, suffix) :: rest =>
      if shown || negb (v =? 0)
      then ((if shown then Text.pad_left 2 "0" (Text.dec v) else Text.dec v)
            ++ suffix) ++ units_text true rest seconds
      else units_text false rest seconds
  end.

Definition duration_text (d h m : Z) (seconds : string) : string :=
  units_text false [(d, "d"); (h, "h"); (m, "m")]%string seconds.

(** The remaining time after the words of the spec, in exact arithmetic: the
    ratio is floored to 0.01 when it is 0, the extrapolated total is the
    elapsed time over the ratio, and what remains is that total less the
    elapsed time. *)
Definition floored_ratio (ratio : Q) : Q :=
  if Qeq_bool ratio 0 then 1 # 100 else ratio.

Definition extrapolated_total (elapsed ratio : Q) : Q :=
  elapsed / floored_ratio ratio.

Definition remaining_spec (elapsed ratio : Q) : Q :=
  extrapolated_total elapsed ratio - elapsed.

(** The rational a finite value of the standard library's specification of
    IEEE 754 arithmetic denotes, and a few binary64 values in that form. *)
Definition SF2Q (f : spec_float) : Q :=
  match f with
  | S754_finite s m e =>
      Qred ((if s then - (1) else 1) * inject_Z (Zpos m) * Double.pow2 e)
  | _ => 0
  end.

Definition sf_one : spec_float := S754_finite false (2 ^ 52) (- 52).
Definition sf_two : spec_float := S754_finite false (2 ^ 52) (- 51).
Definition sf_three : spec_float := S754_finite false 6755399441055744 (- 51).
Definition sf_ten : spec_float := S754_finite false 5629499534213120 (- 49).
Definition sf_least : spec_float := S754_finite false 1 (- 1074).
Definition sf_three_least : spec_float := S754_finite false 3 (- 1074).

(** The body of [RemainingExecutionTime] with the rounding of its operations
    as a parameter: [remaining_after] is [remaining_with Double.round], and
    [remaining_with] of the identity is the same computation in exact
    arithmetic. *)
Definition remaining_with (rnd : Q -> Q) (elapsed progress_ratio : Q) : Q :=
  let progress_ratio :=
    if Qeq_bool progress_ratio 0 then rnd (1 # 100) else progress_ratio in
  let total_s := rnd (rnd (1 / progress_ratio) * elapsed)%Q in
  rnd (total_s - rnd (progress_ratio * total_s))%Q.

(** * Properties *)

(** ** The monad and the renderer *)

Lemma bind_done {A B} (t : list event) (a : A) (k : A -> M B) :
  bind (t, Done a) k = (t ++ fst (k a), snd (k a)).
Proof. unfold bind. destruct (k a); reflexivity. Qed.

Lemma bind_fault {A B} (t : list event) (f : fault) (k : A -> M B) :
  bind (t, Fault f) k = (t, Fault f).
Proof. reflexivity. Qed.

Lemma bind_ret_l {A B} (a : A) (k : A -> M B) : bind (ret a) k = k a.
Proof. unfold bind, ret. destruct (k a). reflexivity. Qed.

Lemma bind_assoc {A B C} (m : M A) (k : A -> M B) (h : B -> M C) :
  bind (bind m k) h = bind m (fun a => bind (k a) h).
Proof.
  destruct m as [t [a|f]]; [|reflexivity].
  unfold bind at 2 3. destruct (k a) as [t1 [b|f]]; [|reflexivity].
  unfold bind. destruct (h b) as [t2 r]. rewrite app_assoc. reflexivity.
Qed.

Lemma defined_silent {A} (o : option A) : trace_of (defined o) = [].
Proof. destruct o; reflexivity. Qed.

Lemma renders_app (s t : list event) : renders (s ++ t) = renders s ++ renders t.
Proof.
  induction s as [|[p|w] s IH]; simpl; rewrite ?IH; reflexivity.
Qed.

Lemma written_app (s t : list event) :
  written (s ++ t) = (written s ++ written t)%string.
Proof.
  induction s as [|[p|w] s IH]; simpl; rewrite ?IH; try reflexivity.
  clear. induction w; simpl; congruence.
Qed.



Lemma BeautifyDuration_silent (x : Q) :
  exists r, BeautifyDuration x = ([], r) /\
            forall f, r = Fault f -> f = ConversionOutOfRange.
Proof.
  unfold BeautifyDuration, bind, defined, ret, fail.
  repeat match goal with
         | |- context [Double.to_int ?a] => destruct (Double.to_int a)
         | |- context [Double.to_long ?a] => destruct (Double.to_long a)
         end; eexists; (split; [reflexivity|]); intros f H;
    try discriminate; injection H as <-; reflexivity.
Qed.

(** Runs the monadic plumbing of a computation whose tests are decided. *)
Ltac step :=
  cbv beta iota delta
    [bind emit ret fail defined trace_of result_of fst snd app renders].

Lemma redrawn_refl b : redrawn b b.
Proof. exists (buffer_ b). destruct b; reflexivity. Qed.

(** The counters a redraw leaves alone. *)
Lemma redrawn_fields b b' :
  redrawn b b' ->
  silent_ b' = silent_ b /\ total_ b' = total_ b /\
  progress_ b' = progress_ b /\ frequency_update b' = frequency_update b.
Proof. intros [s ->]. repeat split. Qed.

Section Renderer.

Variable libm_log10 : Q -> Q.

(** A call of [ShowProgress] on a bar that is not silent starts one frame,
    and changes nothing of the bar but the remembered text. *)
Lemma ShowProgress_frame (e : env) (p : Z) (b : ProgressBar) :
  silent_ b = false ->
  renders (trace_of (ShowProgress libm_log10 e p b)) = [p] /\
  forall b', result_of (ShowProgress libm_log10 e p b) = Done b' -> redrawn b b'.
Proof.
  intros Hs. unfold ShowProgress. rewrite Hs.
  generalize (ratio_of p (total_ b)). intros ratio.
  destruct (BeautifyDuration_silent (RemainingExecutionTime e b ratio))
    as (r1 & E1 & _).
  destruct (BeautifyDuration_silent
              (RemainingExecutionTime e (set_buffer "" b) ratio))
    as (r2 & E2 & _).
  rewrite E1, E2. clear E1 E2.
  destruct (negb (Double.leb 0 ratio)); [split; [reflexivity|discriminate]|].
  destruct (negb (Double.leb ratio 1)); [split; [reflexivity|discriminate]|].
  destruct (logging_mode_ b).
  - destruct r1; step; (split; [reflexivity|]); try discriminate.
    intros b' H. injection H as <-. apply redrawn_refl.
  - destruct (GetBarLength _ _ _) as [bar|]; step;
      [|split; [reflexivity|discriminate]].
    destruct (bar <? 1); step.
    + split; [reflexivity|]. intros b' H. injection H as <-.
      exists EmptyString. reflexivity.
    + destruct (Double.to_size_t _) as [filled|]; step;
        [|split; [reflexivity|discriminate]].
      destruct r2; step; (split; [reflexivity|]); try discriminate.
      intros b' H. injection H as <-. eexists. reflexivity.
Qed.

(** [ShowProgress] fails only by the assertion on the ratio or by a
    conversion. *)
Lemma ShowProgress_faults (e : env) (p : Z) (b : ProgressBar) (f : fault) :
  result_of (ShowProgress libm_log10 e p b) = Fault f ->
  f = RatioAssert \/ f = ConversionOutOfRange.
Proof.
  unfold ShowProgress.
  generalize (ratio_of p (total_ b)). intros ratio.
  destruct (BeautifyDuration_silent (RemainingExecutionTime e b ratio))
    as (r1 & E1 & F1).
  destruct (BeautifyDuration_silent
              (RemainingExecutionTime e (set_buffer "" b) ratio))
    as (r2 & E2 & F2).
  rewrite E1, E2. clear E1 E2.
  destruct (silent_ b); [discriminate|].
  destruct (negb (Double.leb 0 ratio));
    [intros H; injection H as <-; left; reflexivity|].
  destruct (negb (Double.leb ratio 1));
    [intros H; injection H as <-; left; reflexivity|].
  destruct (logging_mode_ b).
  - destruct r1 as [s|f1]; step; [discriminate|].
    intros H; injection H as <-. right. apply F1. reflexivity.
  - destruct (GetBarLength _ _ _) as [bar|]; step;
      [|intros H; injection H as <-; right; reflexivity].
    destruct (bar <? 1); step; [discriminate|].
    destruct (Double.to_size_t _) as [filled|]; step;
      [|intros H; injection H as <-; right; reflexivity].
    destruct r2 as [s|f2]; step; [discriminate|].
    intros H; injection H as <-. right. apply F2. reflexivity.
Qed.

End Renderer.

(** ** The throttle *)

Section Throttle.

Variable libm_log10 : Q -> Q.

Lemma started_fields e b :
  silent_ (started e b) = silent_ b /\ total_ (started e b) = total_ b /\
  progress_ (started e b) = progress_ b /\
  frequency_update (started e b) = frequency_update b.
Proof. unfold started. destruct (progress_ b =? 0); repeat split. Qed.

(** The ways an increment of a bar that is not silent ends: the overflow
    assertion, a division by a zero frequency, or the counter advanced, with
    or without a frame. *)
Lemma add_assign_unfold (e : env) (delta : Z) (b : ProgressBar) :
  silent_ b = false -> delta <> 0 ->
  let after := Int.wrap64 (progress_ b + delta) in
  let b1 := set_progress after (started e b) in
  let shown :=
    b2 <- ShowProgress libm_log10 e after b1 ;;
    (if after =? total_ b2 then emit (Write LF) else ret tt) ;;; ret b2 in
  add_assign libm_log10 e delta b =
  if negb (after <=? total_ b) then fail OverflowAssert
  else if after =? total_ b then shown
  else if frequency_update b =? 0 then fail DivideByZero
  else if Int.wrap64 (after - delta) / frequency_update b
          <? after / frequency_update b
       then shown
       else ret b1.
Proof.
  intros Hs Hd after b1 shown. unfold add_assign. fold (started e b).
  destruct (started_fields e b) as (E1 & E2 & E3 & E4).
  rewrite E1, Hs, E3. fold after. fold b1.
  replace (delta =? 0) with false by (symmetry; apply Z.eqb_neq; exact Hd).
  cbn [orb].
  replace (total_ b1) with (total_ b) by (symmetry; exact E2).
  replace (frequency_update b1) with (frequency_update b)
    by (symmetry; exact E4).
  destruct (negb (after <=? total_ b)); [reflexivity|].
  destruct (after =? total_ b) eqn:Et; [rewrite bind_ret_l; reflexivity|].
  destruct (frequency_update b =? 0); [reflexivity|].
  rewrite bind_ret_l.
  destruct (_ <? _); [reflexivity|].
  rewrite !bind_ret_l.
  replace (total_ b1) with (total_ b) by (symmetry; exact E2).
  rewrite Et, bind_ret_l. reflexivity.
Qed.

(** A frame shown by [operator+=]: one render of the new count, and the bar
    is [b1] but for the remembered text. *)
Lemma shown_frame (e : env) (after : Z) (b1 : ProgressBar) :
  silent_ b1 = false ->
  let shown :=
    b2 <- ShowProgress libm_log10 e after b1 ;;
    (if after =? total_ b2 then emit (Write LF) else ret tt) ;;; ret b2 in
  renders (trace_of shown) = [after] /\
  forall b', result_of shown = Done b' -> redrawn b1 b'.
Proof.
  intros Hs shown. subst shown.
  destruct (ShowProgress_frame libm_log10 e after b1 Hs) as [Hr Hd].
  destruct (ShowProgress libm_log10 e after b1) as [t [b2|f]]; step.
  - cbn [trace_of fst] in Hr.
    destruct (after =? total_ b2); step; rewrite ?renders_app, ?Hr;
      (split; [reflexivity|]); intros b' H; injection H as <-;
      apply Hd; reflexivity.
  - split; [exact Hr|discriminate].
Qed.

End Throttle.

Lemma wrap64_range (z : Z) : 0 <= Int.wrap64 z < Int.two64.
Proof. unfold Int.wrap64. apply Z.mod_pos_bound. reflexivity. Qed.

Lemma wrap64_small (z : Z) : 0 <= z < Int.two64 -> Int.wrap64 z = z.
Proof. intros H. unfold Int.wrap64. apply Z.mod_small. exact H. Qed.

(** The bucket test of the source, written with the wrapped subtraction of
    [uint64_t], implies the test on the integers. *)
Lemma bucket_crossed (after delta f : Z) :
  0 < delta -> 0 < f -> 0 <= after < Int.two64 ->
  Int.wrap64 (after - delta) / f < after / f ->
  (after - delta) / f < after / f.
Proof.
  intros Hd Hf Ha H.
  destruct (Z_lt_le_dec (after - delta) 0) as [Hneg|Hpos].
  - assert ((after - delta) / f < 0) by (apply Z.div_lt_upper_bound; lia).
    assert (0 <= after / f) by (apply Z.div_pos; lia).
    lia.
  - rewrite wrap64_small in H by lia. exact H.
Qed.

(** C1. On every increment of positive size of a bar that is not silent, a
    frame is rendered only if the new count equals the total or the increment
    crossed a boundary between buckets of [frequency_update] units; the frame
    rendered is that of the new count. *)
Theorem render_only_when_due
    (libm_log10 : Q -> Q) (e : env) (delta : Z) (b : ProgressBar) :
  silent_ b = false -> 0 < delta -> wf b ->
  let newCount := Int.wrap64 (progress_ b + delta) in
  forall p, In p (renders (trace_of (add_assign libm_log10 e delta b))) ->
    p = newCount /\
    (newCount = total_ b \/
     (newCount - delta) / frequency_update b < newCount / frequency_update b).
Proof.
  intros Hs Hd (_ & _ & Hf) newCount p Hin.
  rewrite add_assign_unfold in Hin by (assumption || lia).
  fold newCount in Hin.
  assert (Hb1 : silent_ (set_progress newCount (started e b)) = false).
  { cbn. destruct (started_fields e b) as (-> & _). exact Hs. }
  pose proof (shown_frame libm_log10 e newCount _ Hb1) as [Hr _].
  cbv zeta in Hr.
  destruct (negb (newCount <=? total_ b)); [destruct Hin|].
  destruct (newCount =? total_ b) eqn:Et.
  - rewrite Hr in Hin. destruct Hin as [<-|[]].
    split; [reflexivity|]. left. apply Z.eqb_eq. exact Et.
  - destruct (frequency_update b =? 0) eqn:Ef; [destruct Hin|].
    destruct (_ <? _) eqn:Ec; [|destruct Hin].
    rewrite Hr in Hin. destruct Hin as [<-|[]].
    split; [reflexivity|]. right.
    apply Z.eqb_neq in Ef. apply Z.ltb_lt in Ec.
    apply bucket_crossed; try assumption.
    + unfold Int.in_u64 in Hf. lia.
    + apply wrap64_range.
Qed.

Lemma render_only_when_due_witness :
  In 7 (renders (trace_of (add_assign coarse_log10 sample_env 3 sample_bar))) /\
  (7 = Int.wrap64 (4 + 3) /\ (7 = 10 \/ (7 - 3) / 3 < 7 / 3)).
Proof.
  split.
  - vm_compute. left. reflexivity.
  - apply (render_only_when_due coarse_log10 sample_env 3 sample_bar).
    + reflexivity.
    + lia.
    + unfold wf, Int.in_u64, Int.two64. cbn. lia.
    + vm_compute. left. reflexivity.
Defined.

(** C10. An increment of size zero of a bar that is not silent leaves the
    counter as it is, renders no frame and writes nothing to the stream. *)
Theorem zero_increment_is_quiet
    (libm_log10 : Q -> Q) (e : env) (b : ProgressBar) :
  silent_ b = false ->
  renders (trace_of (add_assign libm_log10 e 0 b)) = [] /\
  written (trace_of (add_assign libm_log10 e 0 b)) = EmptyString /\
  exists b', result_of (add_assign libm_log10 e 0 b) = Done b' /\
             progress_ b' = progress_ b.
Proof.
  intros Hs. unfold add_assign. fold (started e b).
  destruct (started_fields e b) as (-> & _ & Hp & _).
  rewrite Hs. cbn.
  repeat split. exists (started e b). split; [reflexivity|exact Hp].
Qed.

Lemma zero_increment_is_quiet_witness :
  renders (trace_of (add_assign coarse_log10 sample_env 0 sample_bar)) = [] /\
  written (trace_of (add_assign coarse_log10 sample_env 0 sample_bar))
    = EmptyString /\
  exists b', result_of (add_assign coarse_log10 sample_env 0 sample_bar)
               = Done b' /\
             progress_ b' = progress_ sample_bar.
Proof.
  apply (zero_increment_is_quiet coarse_log10 sample_env sample_bar).
  reflexivity.
Defined.

(** ** Silent bars *)

Section Silent.

Variable libm_log10 : Q -> Q.

Lemma add_assign_silent (e : env) (delta : Z) (b : ProgressBar) :
  silent_ b = true ->
  add_assign libm_log10 e delta b = ([], Done (started e b)).
Proof.
  intros Hs. unfold add_assign. fold (started e b).
  destruct (started_fields e b) as (-> & _). rewrite Hs. reflexivity.
Qed.

Lemma perform_silent (c : call) (b : ProgressBar) :
  silent_ b = true ->
  exists b', perform libm_log10 c b = ([], Done b') /\
             silent_ b' = true /\ progress_ b' = progress_ b.
Proof.
  intros Hs.
  destruct c as [e delta|e|n|u s]; cbn [perform]; unfold increment;
    rewrite ?add_assign_silent by exact Hs.
  - exists (started e b). destruct (started_fields e b) as (-> & _ & -> & _).
    repeat split. exact Hs.
  - exists (started e b). destruct (started_fields e b) as (-> & _ & -> & _).
    repeat split. exact Hs.
  - eexists. split; [reflexivity|]. unfold SetFrequencyUpdate.
    destruct (total_ b <? n); split; assumption || reflexivity.
  - eexists. split; [reflexivity|]. split; assumption || reflexivity.
Qed.

Lemma drive_silent (cs : list call) (b : ProgressBar) :
  silent_ b = true ->
  exists b', drive libm_log10 cs b = ([], Done b') /\
             silent_ b' = true /\ progress_ b' = progress_ b.
Proof.
  revert b. induction cs as [|c cs IH]; intros b Hs.
  - exists b. repeat split. exact Hs.
  - cbn [drive].
    destruct (perform_silent c b Hs) as (b1 & -> & Hs1 & Hp1).
    destruct (IH b1 Hs1) as (b2 & E2 & Hs2 & Hp2).
    exists b2. rewrite bind_done, E2. repeat split; [exact Hs2|congruence].
Qed.

Lemma ShowProgress_silent (e : env) (p : Z) (b : ProgressBar) :
  silent_ b = true -> ShowProgress libm_log10 e p b = ([], Done b).
Proof. intros Hs. unfold ShowProgress. rewrite Hs. reflexivity. Qed.

End Silent.

(** C5, as the code has it.  A silent bar writes nothing and renders nothing,
    whatever the host calls, from its construction to its destruction, and
    every call returns; an increment of a silent bar leaves the counter where
    it was, since [operator+=] returns before it adds, so the counter of a
    silent bar stays at 0. *)
Theorem silent_bar_is_inert
    (libm_log10 : Q -> Q) (raw : ProgressBar) (e0 e1 : env) (total : Z)
    (description : string) (tty silent : bool) (cs : list call)
    (e : env) (delta : Z) (b : ProgressBar) :
  silent = true -> silent_ b = true ->
  (trace_of (lifetime libm_log10 raw e0 total description tty silent cs e1)
     = [] /\
   result_of (lifetime libm_log10 raw e0 total description tty silent cs e1)
     = Done tt /\
   exists b',
     result_of (session libm_log10 raw e0 total description tty silent cs)
       = Done b' /\ progress_ b' = 0) /\
  (trace_of (add_assign libm_log10 e delta b) = [] /\
   exists b', result_of (add_assign libm_log10 e delta b) = Done b' /\
              progress_ b' = progress_ b).
Proof.
  intros -> Hs. split.
  - unfold lifetime, session, construct. cbv iota. rewrite bind_ret_l.
    match goal with |- context [drive _ _ ?b0] => set (b0' := b0) end.
    destruct (drive_silent libm_log10 cs b0' eq_refl) as (b1 & -> & Hs1 & Hp1).
    rewrite bind_done. cbn [fst snd app].
    unfold destruct_bar.
    rewrite (ShowProgress_silent libm_log10 e1 (progress_ b1) b1 Hs1).
    rewrite bind_done.
    repeat split.
    + destruct (negb (progress_ b1 =? total_ b1)); [rewrite Hs1|]; reflexivity.
    + destruct (negb (progress_ b1 =? total_ b1)); [rewrite Hs1|]; reflexivity.
    + exists b1. split; [reflexivity|]. rewrite Hp1. reflexivity.
  - rewrite add_assign_silent by assumption. split; [reflexivity|].
    exists (started e b). split; [reflexivity|]. apply started_fields.
Qed.

Lemma silent_bar_is_inert_witness :
  (trace_of (lifetime coarse_log10 sample_bar sample_env 10 "work" true true
               [AddAssign sample_env 3; Increment sample_env] sample_env)
     = [] /\
   result_of (lifetime coarse_log10 sample_bar sample_env 10 "work" true true
                [AddAssign sample_env 3; Increment sample_env] sample_env)
     = Done tt /\
   exists b',
     result_of (session coarse_log10 sample_bar sample_env 10 "work" true true
                  [AddAssign sample_env 3; Increment sample_env])
       = Done b' /\ progress_ b' = 0) /\
  (trace_of (add_assign coarse_log10 sample_env 3 sample_silent_bar) = [] /\
   exists b', result_of (add_assign coarse_log10 sample_env 3 sample_silent_bar)
                = Done b' /\
              progress_ b' = progress_ sample_silent_bar).
Proof.
  apply (silent_bar_is_inert coarse_log10 sample_bar sample_env sample_env 10
           "work" true true [AddAssign sample_env 3; Increment sample_env]
           sample_env 3 sample_silent_bar); reflexivity.
Defined.

(** C5, as the spec has it, fails: a silent bar at 0 that is incremented by 3
    still counts 0. *)
Lemma silent_counter_does_not_advance :
  silent_ sample_silent_bar = true /\
  ~ counter_advances coarse_log10 sample_env 3 sample_silent_bar.
Proof.
  split; [reflexivity|].
  intros (b' & Hr & Hp). vm_compute in Hr. injection Hr as <-.
  vm_compute in Hp. discriminate.
Qed.

(** ** The update frequency *)

(** C8. [SetFrequencyUpdate n] stores the total when [n] exceeds it and [n]
    otherwise.  After a clamped call no increment divides by zero in the
    throttle, and an increment that completes the bar renders its frame. *)
Theorem SetFrequencyUpdate_clamps
    (libm_log10 : Q -> Q) (n : Z) (b : ProgressBar) (e : env) (delta : Z) :
  total_ b < n ->
  let b' := SetFrequencyUpdate n b in
  (forall m, frequency_update (SetFrequencyUpdate m b)
             = if total_ b <? m then total_ b else m) /\
  frequency_update b' = total_ b /\
  total_ b' = total_ b /\ progress_ b' = progress_ b /\
  result_of (add_assign libm_log10 e delta b') <> Fault DivideByZero /\
  (silent_ b = false -> delta <> 0 ->
   Int.wrap64 (progress_ b + delta) = total_ b ->
   renders (trace_of (add_assign libm_log10 e delta b')) = [total_ b]).
Proof.
  intros Hn b'.
  assert (Eb : b' = set_frequency_update (total_ b) b).
  { subst b'. unfold SetFrequencyUpdate.
    replace (total_ b <? n) with true by (symmetry; apply Z.ltb_lt; exact Hn).
    reflexivity. }
  split; [|split; [|split; [|split; [|split]]]].
  - intros m. unfold SetFrequencyUpdate. destruct (total_ b <? m); reflexivity.
  - rewrite Eb. reflexivity.
  - rewrite Eb. reflexivity.
  - rewrite Eb. reflexivity.
  - destruct (silent_ b') eqn:Hs.
    { rewrite add_assign_silent by exact Hs. discriminate. }
    destruct (Z.eq_dec delta 0) as [->|Hd].
    { unfold add_assign. fold (started e b').
      destruct (started_fields e b') as (-> & _). rewrite Hs. discriminate. }
    rewrite add_assign_unfold by assumption. cbv zeta.
    set (after := Int.wrap64 (progress_ b' + delta)).
    assert (Hshown : forall b1,
               result_of (b2 <- ShowProgress libm_log10 e after b1 ;;
                          (if after =? total_ b2 then emit (Write LF) else ret tt) ;;;
                          ret b2) <> Fault DivideByZero).
    { intros b1.
      pose proof (ShowProgress_faults libm_log10 e after b1) as HF.
      destruct (ShowProgress libm_log10 e after b1) as [t [b2|f]]; step.
      - destruct (after =? total_ b2); step; discriminate.
      - intros H. injection H as ->.
        destruct (HF DivideByZero eq_refl); discriminate. }
    destruct (negb (after <=? total_ b')) eqn:Ea; [discriminate|].
    destruct (after =? total_ b') eqn:Et; [apply Hshown|].
    destruct (frequency_update b' =? 0) eqn:Ef.
    + exfalso. apply Z.eqb_eq in Ef. apply Z.eqb_neq in Et.
      apply negb_false_iff, Z.leb_le in Ea.
      rewrite Eb in Ef, Et, Ea. cbn in Ef, Et, Ea.
      pose proof (wrap64_range (progress_ b' + delta)). fold after in H. lia.
    + destruct (_ <? _); [apply Hshown|discriminate].
  - intros Hs Hd Hc.
    assert (Hs' : silent_ b' = false) by (rewrite Eb; exact Hs).
    rewrite add_assign_unfold by assumption. cbv zeta.
    replace (progress_ b') with (progress_ b) by (rewrite Eb; reflexivity).
    replace (total_ b') with (total_ b) by (rewrite Eb; reflexivity).
    rewrite Hc.
    replace (negb (total_ b <=? total_ b)) with false
      by (symmetry; apply negb_false_iff, Z.leb_le; lia).
    rewrite Z.eqb_refl.
    apply (shown_frame libm_log10 e (total_ b)).
    cbn. destruct (started_fields e b') as (-> & _). exact Hs'.
Qed.

Lemma SetFrequencyUpdate_clamps_witness :
  (forall m, frequency_update (SetFrequencyUpdate m sample_bar)
             = if 10 <? m then 10 else m) /\
  frequency_update (SetFrequencyUpdate 25 sample_bar) = 10 /\
  total_ (SetFrequencyUpdate 25 sample_bar) = 10 /\
  progress_ (SetFrequencyUpdate 25 sample_bar) = 4 /\
  result_of (add_assign coarse_log10 sample_env 6
               (SetFrequencyUpdate 25 sample_bar)) <> Fault DivideByZero /\
  (silent_ sample_bar = false -> 6 <> 0 ->
   Int.wrap64 (4 + 6) = 10 ->
   renders (trace_of (add_assign coarse_log10 sample_env 6
                        (SetFrequencyUpdate 25 sample_bar))) = [10]).
Proof.
  apply (SetFrequencyUpdate_clamps coarse_log10 25 sample_bar sample_env 6).
  cbn. lia.
Defined.

(** A frequency of zero, which [SetFrequencyUpdate 0] stores as it is, is
    another matter: the next increment that does not complete the bar divides
    by it. *)
Example zero_frequency_divides_by_zero :
  add_assign coarse_log10 sample_env 1 (SetFrequencyUpdate 0 sample_bar)
  = ([], Fault DivideByZero).
Proof. vm_compute. reflexivity. Qed.

(** ** The number of frames *)






Section Counting.

Variable libm_log10 : Q -> Q.


End Counting.

Section Lifetime.

Variable libm_log10 : Q -> Q.

(** The constructor of a bar that is not silent renders the frame of 0 and
    leaves the counter there. *)
Lemma construct_frame (raw : ProgressBar) (e : env) (total : Z)
    (description : string) (tty : bool) :
  renders (trace_of (construct libm_log10 raw e total description tty false))
    = [0] /\
  forall b,
    result_of (construct libm_log10 raw e total description tty false) = Done b ->
    silent_ b = false /\ total_ b = total /\ progress_ b = 0 /\
    frequency_update b = Z.max 1 (total / 1000).
Proof.
  unfold construct. cbv iota.
  match goal with |- context [ShowProgress _ _ _ ?b0] => set (b1 := b0) end.
  assert (Hs : silent_ b1 = false) by reflexivity.
  assert (Hf1 : total_ b1 = total /\ progress_ b1 = 0 /\
                frequency_update b1 = Z.max 1 (total / 1000))
    by (repeat split).
  destruct Hf1 as (Ht1 & Hp1 & Hf1).
  match goal with
  | |- context [if logging_mode_ ?x then _ else _] =>
      change (logging_mode_ x) with (negb tty)
  end.
  clearbody b1.
  destruct (ShowProgress_frame libm_log10 e 0 b1 Hs) as [Hr Hd].
  destruct (ShowProgress libm_log10 e 0 b1) as [t [b2|f]].
  - cbn [trace_of result_of fst snd] in Hr, Hd.
    destruct (redrawn_fields b1 b2 (Hd b2 eq_refl)) as (Es & Et & Ep & Ef).
    unfold emit, ret.
    destruct (negb tty); rewrite !bind_done; cbn [fst snd];
      destruct (progress_ b2 =? total_ b2); rewrite ?bind_done;
      cbn [fst snd trace_of result_of];
      rewrite ?renders_app, ?Hr; (split; [reflexivity|]);
      intros b H; injection H as <-;
      rewrite Es, Et, Ep, Ef; repeat split; assumption.
  - cbn [trace_of fst] in Hr. unfold emit, ret.
    destruct (negb tty); rewrite !bind_done; cbn [fst snd];
      rewrite ?bind_fault; cbn [fst snd trace_of result_of];
      rewrite ?renders_app, ?Hr;
      (split; [reflexivity|discriminate]).
Qed.


End Lifetime.



(** Many increments of 1 and one increment of the whole total end in the
    same counter. *)
Example ten_by_one_and_one_by_ten :
  (exists b, result_of (session coarse_log10 sample_bar sample_env 10 "work"
                          true false
                          (increments (repeat (sample_env, 1) 10))) = Done b /\
             progress_ b = 10) /\
  (exists b, result_of (session coarse_log10 sample_bar sample_env 10 "work"
                          true false
                          (increments [(sample_env, 10)])) = Done b /\
             progress_ b = 10).
Proof. split; eexists; (split; [vm_compute; reflexivity|reflexivity]). Qed.

(** ** Rounding to nearest *)

(** Integers among the rationals. *)

Lemma inject_Z_sub (x y : Z) : (inject_Z x - inject_Z y)%Q = inject_Z (x - y).
Proof. unfold Qminus, Qplus, Qopp, inject_Z. cbn. f_equal. lia. Qed.

Lemma inject_Z_double (x : Z) : (inject_Z x * 2)%Q = inject_Z (x * 2).
Proof. unfold Qmult, inject_Z. cbn. reflexivity. Qed.

Module Rounding.

Import Double.

Local Open Scope Z_scope.

(** The quotient chosen by [rne_div] is within half a unit of the exact one,
    and even when it is exactly half a unit away. *)
Lemma rne_div_spec (n d : Z) :
  0 < d ->
  2 * Z.abs (n - rne_div n d * d) <= d /\
  (2 * Z.abs (n - rne_div n d * d) = d -> Z.even (rne_div n d) = true).
Proof.
  intros Hd. unfold rne_div.
  pose proof (Z.div_mod n d ltac:(lia)) as Hdm.
  pose proof (Z.mod_pos_bound n d Hd) as Hm.
  set (q := n / d) in *. set (r := n mod d) in *.
  destruct (2 * r ?= d) eqn:E.
  - apply Z.compare_eq in E.
    destruct (Z.even q) eqn:Ev.
    + split; [|intros _; exact Ev]. lia.
    + split; [nia|]. intros _. rewrite Z.even_add, Ev. reflexivity.
  - rewrite Z.compare_lt_iff in E. split; [nia|]. intros H. exfalso. nia.
  - rewrite Z.compare_gt_iff in E. split; [nia|]. intros H. exfalso. nia.
Qed.

Lemma rne_div_le (n d k : Z) : 0 < d -> n <= k * d -> rne_div n d <= k.
Proof.
  intros Hd Hk. destruct (rne_div_spec n d Hd) as [H _].
  destruct (Z_le_gt_dec (rne_div n d) k) as [|Hgt]; [assumption|exfalso].
  assert ((k + 1) * d <= rne_div n d * d) by nia. lia.
Qed.

Lemma rne_div_ge (n d k : Z) : 0 < d -> k * d <= n -> k <= rne_div n d.
Proof.
  intros Hd Hk. destruct (rne_div_spec n d Hd) as [H _].
  destruct (Z_le_gt_dec k (rne_div n d)) as [|Hgt]; [assumption|exfalso].
  assert (rne_div n d * d <= (k - 1) * d) by nia. lia.
Qed.

(** Rounding is monotone, whatever the denominators. *)
Lemma rne_div_mono (n1 d1 n2 d2 : Z) :
  0 < d1 -> 0 < d2 -> n1 * d2 <= n2 * d1 ->
  rne_div n1 d1 <= rne_div n2 d2.
Proof.
  intros H1 H2 Hle.
  destruct (rne_div_spec n1 d1 H1) as [E1 T1].
  destruct (rne_div_spec n2 d2 H2) as [E2 T2].
  set (m1 := rne_div n1 d1) in *. set (m2 := rne_div n2 d2) in *.
  destruct (Z_le_gt_dec m1 m2) as [|Hgt]; [assumption|exfalso].
  assert (A1 : (2 * m1 - 1) * d1 <= 2 * n1) by lia.
  assert (A2 : 2 * n2 <= (2 * m2 + 1) * d2) by lia.
  assert (B : (2 * m1 - 1) * (d1 * d2) <= (2 * m2 + 1) * (d1 * d2)) by nia.
  assert (C : 2 * m1 - 1 <= 2 * m2 + 1) by nia.
  assert (m1 = m2 + 1) by lia.
  assert (F1 : 2 * Z.abs (n1 - m1 * d1) = d1) by nia.
  assert (F2 : 2 * Z.abs (n2 - m2 * d2) = d2) by nia.
  specialize (T1 F1). specialize (T2 F2).
  replace m1 with (m2 + 1) in T1 by lia.
  rewrite Z.even_add, T2 in T1. discriminate.
Qed.

Local Open Scope Q_scope.

(** *** Powers of two *)

Lemma pow2_Qpower (e : Z) : pow2 e == 2 ^ e.
Proof.
  unfold pow2. destruct (Z.leb_spec 0 e) as [H|H].
  - apply Zpower_Qpower. exact H.
  - assert (E1 : 2 ^ e == / inject_Z (2 ^ (- e))).
    { replace e with (- - e)%Z at 1 by lia. rewrite Qpower_opp.
      apply Qinv_comp. symmetry. apply (Zpower_Qpower 2). lia. }
    rewrite E1.
    assert (Hp : (0 < 2 ^ (- e))%Z) by (apply Z.pow_pos_nonneg; lia).
    destruct (2 ^ (- e))%Z as [|p|p]; try lia.
    reflexivity.
Qed.

Lemma pow2_pos (e : Z) : 0 < pow2 e.
Proof. rewrite pow2_Qpower. apply Qpower_0_lt. reflexivity. Qed.

Lemma pow2_add (a b : Z) : pow2 (a + b) == pow2 a * pow2 b.
Proof. rewrite !pow2_Qpower. apply Qpower_plus. discriminate. Qed.

Lemma pow2_0 : pow2 0 == 1.
Proof. reflexivity. Qed.

Lemma pow2_cancel (e : Z) : pow2 e * pow2 (- e) == 1.
Proof. rewrite <- pow2_add, Z.add_opp_diag_r. reflexivity. Qed.

Lemma pow2_le (a b : Z) : (a <= b)%Z -> pow2 a <= pow2 b.
Proof.
  intros H. rewrite !pow2_Qpower. apply Qpower_le_compat_l; [exact H|].
  discriminate.
Qed.

Lemma pow2_lt (a b : Z) : (a < b)%Z -> pow2 a < pow2 b.
Proof.
  intros H. rewrite !pow2_Qpower. apply Qpower_lt_compat_l; [exact H|].
  reflexivity.
Qed.

Lemma pow2_lt_inv (a b : Z) : pow2 a < pow2 b -> (a < b)%Z.
Proof.
  rewrite !pow2_Qpower. intros H.
  apply (Qpower_lt_compat_l_inv 2); [exact H|reflexivity].
Qed.

Lemma pow2_nonneg (e : Z) : (0 <= e)%Z -> pow2 e = inject_Z (2 ^ e).
Proof.
  intros H. unfold pow2.
  replace (0 <=? e)%Z with true by (symmetry; apply Z.leb_le; exact H).
  reflexivity.
Qed.

(** *** The binary exponent of a positive rational *)

Lemma ilog2_spec (n : Z) (d : positive) :
  (0 < n)%Z ->
  pow2 (ilog2 n d) <= n # d /\ n # d < pow2 (ilog2 n d + 1).
Proof.
  intros Hn. unfold ilog2.
  destruct (Z.log2_spec n Hn) as [Ln Un].
  destruct (Z.log2_spec (Zpos d) ltac:(lia)) as [Ld Ud].
  pose proof (Z.log2_nonneg n) as Nn.
  pose proof (Z.log2_nonneg (Zpos d)) as Nd.
  set (ln := Z.log2 n) in *. set (ld := Z.log2 (Zpos d)) in *.
  clearbody ln ld.
  assert (Qn : pow2 ln <= inject_Z n /\ inject_Z n < pow2 (ln + 1)).
  { rewrite !pow2_nonneg by lia. rewrite <- Zle_Qle, <- Zlt_Qlt.
    replace (ln + 1)%Z with (Z.succ ln) by lia. split; assumption. }
  assert (Qd : pow2 ld <= inject_Z (Zpos d) /\ inject_Z (Zpos d) < pow2 (ld + 1)).
  { rewrite !pow2_nonneg by lia. rewrite <- Zle_Qle, <- Zlt_Qlt.
    replace (ld + 1)%Z with (Z.succ ld) by lia. split; assumption. }
  assert (Hq : n # d == inject_Z n / inject_Z (Zpos d)) by apply Qmake_Qdiv.
  assert (Dpos : 0 < inject_Z (Zpos d)) by reflexivity.
  (* the test of [ilog2] compares [pow2 e0] with [n / d] *)
  assert (Htest :
    (if (if 0 <=? ln - ld then 2 ^ (ln - ld) * Zpos d <=? n
         else Zpos d <=? n * 2 ^ (- (ln - ld)))%Z
     then pow2 (ln - ld) <= n # d else n # d < pow2 (ln - ld))).
  { destruct (Z.leb_spec 0 (ln - ld)) as [H0|H0].
    - rewrite pow2_nonneg by lia.
      destruct (Z.leb_spec (2 ^ (ln - ld) * Zpos d) n) as [H|H].
      + unfold Qle. cbn. lia.
      + unfold Qlt. cbn. lia.
    - assert (Hp : (0 < 2 ^ (- (ln - ld)))%Z) by (apply Z.pow_pos_nonneg; lia).
      unfold pow2.
      replace (0 <=? ln - ld)%Z with false by (symmetry; apply Z.leb_gt; lia).
      destruct (Z.leb_spec (Zpos d) (n * 2 ^ (- (ln - ld)))) as [H|H].
      + unfold Qle. cbn. rewrite Z2Pos.id by lia. lia.
      + unfold Qlt. cbn. rewrite Z2Pos.id by lia. lia. }
  destruct (if (0 <=? ln - ld)%Z then _ else _).
  - split; [exact Htest|].
    rewrite Hq.
    apply Qlt_shift_div_r; [exact Dpos|].
    apply Qlt_le_trans with (pow2 (ln + 1)); [apply Qn|].
    replace (ln + 1)%Z with ((ln - ld + 1) + ld)%Z by lia.
    rewrite pow2_add.
    apply Qmult_le_l; [apply pow2_pos|apply Qd].
  - split; [|replace (ln - ld - 1 + 1)%Z with (ln - ld)%Z by lia; exact Htest].
    rewrite Hq.
    apply Qle_shift_div_l; [exact Dpos|].
    apply Qle_trans with (pow2 ln); [|apply Qn].
    replace ln with ((ln - ld - 1) + (ld + 1))%Z at 2 by lia.
    rewrite pow2_add.
    apply Qmult_le_l; [apply pow2_pos|]. apply Qlt_le_weak, Qd.
Qed.

(** *** The significand *)

Lemma inject_Z_nonneg (z : Z) : (0 <= z)%Z -> 0 <= inject_Z z.
Proof. intros H. unfold Qle. cbn. lia. Qed.

Lemma scale_den_pos (d : positive) (ex : Z) : (0 < scale_den d ex)%Z.
Proof.
  unfold scale_den. destruct (Z.leb_spec 0 ex); [|lia].
  assert (0 < 2 ^ ex)%Z by (apply Z.pow_pos_nonneg; lia). lia.
Qed.

Lemma Qmake_mult_den (n : Z) (d : positive) :
  (n # d) * inject_Z (Zpos d) == inject_Z n.
Proof. unfold Qeq. cbn. lia. Qed.

(** The scaled numerator over the scaled denominator is [n / d] in units of
    [2^ex]. *)
Lemma scale_eq (n : Z) (d : positive) (ex : Z) :
  inject_Z (scale_num n ex) ==
  (n # d) * pow2 (- ex) * inject_Z (scale_den d ex).
Proof.
  pose proof (Qmake_mult_den n d) as Hq.
  pose proof (pow2_cancel ex) as Hc.
  unfold scale_num, scale_den. destruct (Z.leb_spec 0 ex) as [H|H].
  - rewrite inject_Z_mult, <- pow2_nonneg by lia.
    transitivity ((n # d) * inject_Z (Zpos d) * (pow2 ex * pow2 (- ex)));
      [rewrite Hc, Hq; ring|ring].
  - rewrite inject_Z_mult, <- pow2_nonneg by lia.
    transitivity ((n # d) * inject_Z (Zpos d) * pow2 (- ex));
      [rewrite Hq; ring|ring].
Qed.

Lemma round_pos_eq (n : Z) (d : positive) :
  round_pos n d ==
  inject_Z (rne_div (scale_num n (ulp_exp n d)) (scale_den d (ulp_exp n d)))
  * pow2 (ulp_exp n d).
Proof. unfold round_pos. apply Qred_correct. Qed.

(** A multiple of the unit in the last place above the exact value is above
    the rounded value, and likewise below. *)
Lemma round_pos_le (n : Z) (d : positive) (z : Z) :
  n # d <= inject_Z z * pow2 (ulp_exp n d) ->
  round_pos n d <= inject_Z z * pow2 (ulp_exp n d).
Proof.
  intros H. rewrite round_pos_eq.
  set (ex := ulp_exp n d) in *.
  apply Qmult_le_compat_r; [|apply Qlt_le_weak, pow2_pos].
  rewrite <- Zle_Qle.
  apply rne_div_le; [apply scale_den_pos|].
  rewrite Zle_Qle, inject_Z_mult, (scale_eq n d ex).
  apply Qmult_le_compat_r;
    [|apply inject_Z_nonneg; pose proof (scale_den_pos d ex); lia].
  pose proof (pow2_cancel ex) as Hc. pose proof (pow2_pos (- ex)) as Hp.
  apply Qle_trans with (inject_Z z * pow2 ex * pow2 (- ex)).
  - apply Qmult_le_compat_r; [exact H|apply Qlt_le_weak, Hp].
  - rewrite <- Qmult_assoc, Hc. lra.
Qed.

Lemma round_pos_ge (n : Z) (d : positive) (z : Z) :
  inject_Z z * pow2 (ulp_exp n d) <= n # d ->
  inject_Z z * pow2 (ulp_exp n d) <= round_pos n d.
Proof.
  intros H. rewrite round_pos_eq.
  set (ex := ulp_exp n d) in *.
  apply Qmult_le_compat_r; [|apply Qlt_le_weak, pow2_pos].
  rewrite <- Zle_Qle.
  apply rne_div_ge; [apply scale_den_pos|].
  rewrite Zle_Qle, inject_Z_mult, (scale_eq n d ex).
  apply Qmult_le_compat_r;
    [|apply inject_Z_nonneg; pose proof (scale_den_pos d ex); lia].
  pose proof (pow2_cancel ex) as Hc. pose proof (pow2_pos (- ex)) as Hp.
  apply Qle_trans with (inject_Z z * pow2 ex * pow2 (- ex)).
  - rewrite <- Qmult_assoc, Hc. lra.
  - apply Qmult_le_compat_r; [exact H|apply Qlt_le_weak, Hp].
Qed.

(** A multiple of [2^c] is a multiple of every smaller power of two. *)
Lemma multiple_refine (z c ex : Z) :
  (ex <= c)%Z ->
  inject_Z (z * 2 ^ (c - ex)) * pow2 ex == inject_Z z * pow2 c.
Proof.
  intros H. rewrite inject_Z_mult, <- pow2_nonneg by lia.
  replace c with ((c - ex) + ex)%Z at 2 by lia. rewrite pow2_add. ring.
Qed.

Lemma ulp_exp_le (n : Z) (d : positive) (c : Z) :
  (0 < n)%Z -> n # d < pow2 (c + 53) -> (-1074 <= c)%Z ->
  (ulp_exp n d <= c)%Z.
Proof.
  intros Hn Hq Hc. destruct (ilog2_spec n d Hn) as [Hl _].
  assert (ilog2 n d < c + 53)%Z.
  { apply pow2_lt_inv. eapply Qle_lt_trans; eassumption. }
  unfold ulp_exp. lia.
Qed.

(** *** Rounding of any rational *)

Lemma Qmake_pos (p d : positive) : 0 < Zpos p # d.
Proof. reflexivity. Qed.

Lemma round_pos_nonneg (n : Z) (d : positive) : (0 < n)%Z -> 0 <= round_pos n d.
Proof.
  intros Hn.
  assert (H : inject_Z 0 * pow2 (ulp_exp n d) <= round_pos n d).
  { apply round_pos_ge. rewrite Qmult_0_l. unfold Qle. cbn. lia. }
  rewrite Qmult_0_l in H. exact H.
Qed.

(** The rounded value does not cross a binary64 value: here a multiple
    [z * 2^c] of a power of two that the significand of [q] can express. *)
Theorem round_le (q : Q) (z c : Z) :
  q <= inject_Z z * pow2 c -> Qabs q < pow2 (c + 53) -> (-1074 <= c)%Z ->
  round q <= inject_Z z * pow2 c.
Proof.
  intros Hq Ha Hc. destruct q as [[|p|p] d]; unfold round; cbn [Qnum Qden].
  - apply Qle_trans with (0 # d); [|exact Hq]. unfold Qle. cbn. lia.
  - assert (He : (ulp_exp (Zpos p) d <= c)%Z) by
      (apply ulp_exp_le; [lia|exact Ha|exact Hc]).
    rewrite <- (multiple_refine z c _ He) in Hq |- *.
    apply round_pos_le. exact Hq.
  - assert (He : (ulp_exp (Zpos p) d <= c)%Z) by
      (apply ulp_exp_le; [lia|exact Ha|exact Hc]).
    change (- Z.neg p)%Z with (Zpos p).
    assert (H : inject_Z (- z * 2 ^ (c - ulp_exp (Zpos p) d))
                * pow2 (ulp_exp (Zpos p) d) <= round_pos (Zpos p) d).
    { apply round_pos_ge. rewrite (multiple_refine (- z) c _ He).
      rewrite inject_Z_opp.
      change (Zpos p # d) with (- (Z.neg p # d)). lra. }
    rewrite (multiple_refine (- z) c _ He), inject_Z_opp in H. lra.
Qed.

Theorem round_ge (q : Q) (z c : Z) :
  inject_Z z * pow2 c <= q -> Qabs q < pow2 (c + 53) -> (-1074 <= c)%Z ->
  inject_Z z * pow2 c <= round q.
Proof.
  intros Hq Ha Hc. destruct q as [[|p|p] d]; unfold round; cbn [Qnum Qden].
  - apply Qle_trans with (0 # d); [exact Hq|]. unfold Qle. cbn. lia.
  - assert (He : (ulp_exp (Zpos p) d <= c)%Z) by
      (apply ulp_exp_le; [lia|exact Ha|exact Hc]).
    rewrite <- (multiple_refine z c _ He) in Hq |- *.
    apply round_pos_ge. exact Hq.
  - assert (He : (ulp_exp (Zpos p) d <= c)%Z) by
      (apply ulp_exp_le; [lia|exact Ha|exact Hc]).
    change (- Z.neg p)%Z with (Zpos p).
    assert (H : round_pos (Zpos p) d
                <= inject_Z (- z * 2 ^ (c - ulp_exp (Zpos p) d))
                   * pow2 (ulp_exp (Zpos p) d)).
    { apply round_pos_le. rewrite (multiple_refine (- z) c _ He).
      rewrite inject_Z_opp.
      change (Zpos p # d) with (- (Z.neg p # d)). lra. }
    rewrite (multiple_refine (- z) c _ He), inject_Z_opp in H. lra.
Qed.

(** A value the significand can express is not changed by rounding. *)
Theorem round_exact (q : Q) (z c : Z) :
  q == inject_Z z * pow2 c -> Qabs q < pow2 (c + 53) -> (-1074 <= c)%Z ->
  round q == q.
Proof.
  intros Hq Ha Hc. apply Qle_antisym.
  - rewrite Hq at 2. apply round_le; [rewrite Hq; lra|exact Ha|exact Hc].
  - rewrite Hq at 1. apply round_ge; [rewrite Hq; lra|exact Ha|exact Hc].
Qed.

Lemma round_nonneg (q : Q) : 0 <= q -> 0 <= round q.
Proof.
  intros Hq. destruct q as [[|p|p] d]; unfold round; cbn [Qnum Qden].
  - lra.
  - apply round_pos_nonneg. lia.
  - exfalso. unfold Qle in Hq. cbn in Hq. lia.
Qed.

Lemma round_nonpos (q : Q) : q <= 0 -> round q <= 0.
Proof.
  intros Hq. destruct q as [[|p|p] d]; unfold round; cbn [Qnum Qden].
  - lra.
  - exfalso. unfold Qle in Hq. cbn in Hq. lia.
  - pose proof (round_pos_nonneg (Zpos p) d ltac:(lia)).
    change (- Z.neg p)%Z with (Zpos p). lra.
Qed.

(** *** Monotonicity *)

Lemma ilog2_mono (n1 : Z) (d1 : positive) (n2 : Z) (d2 : positive) :
  (0 < n1)%Z -> (0 < n2)%Z -> n1 # d1 <= n2 # d2 ->
  (ilog2 n1 d1 <= ilog2 n2 d2)%Z.
Proof.
  intros H1 H2 Hle.
  destruct (ilog2_spec n1 d1 H1) as [L1 _].
  destruct (ilog2_spec n2 d2 H2) as [_ U2].
  assert (ilog2 n1 d1 < ilog2 n2 d2 + 1)%Z; [|lia].
  apply pow2_lt_inv. lra.
Qed.

Lemma round_pos_mono (n1 : Z) (d1 : positive) (n2 : Z) (d2 : positive) :
  (0 < n1)%Z -> (0 < n2)%Z -> n1 # d1 <= n2 # d2 ->
  round_pos n1 d1 <= round_pos n2 d2.
Proof.
  intros H1 H2 Hle.
  pose proof (ilog2_mono n1 d1 n2 d2 H1 H2 Hle) as He.
  destruct (ilog2_spec n1 d1 H1) as [L1 U1].
  destruct (ilog2_spec n2 d2 H2) as [L2 U2].
  destruct (Z.eq_dec (ulp_exp n1 d1) (ulp_exp n2 d2)) as [Eex|Nex].
  - (* the same unit in the last place *)
    rewrite !round_pos_eq, <- Eex.
    set (ex := ulp_exp n1 d1) in *.
    apply Qmult_le_compat_r; [|apply Qlt_le_weak, pow2_pos].
    rewrite <- Zle_Qle.
    apply rne_div_mono; try apply scale_den_pos.
    rewrite Zle_Qle, !inject_Z_mult.
    rewrite (scale_eq n1 d1 ex), (scale_eq n2 d2 ex).
    pose proof (pow2_pos (- ex)) as Hp.
    pose proof (scale_den_pos d1 ex) as D1.
    pose proof (scale_den_pos d2 ex) as D2.
    assert (Q1 : 0 < inject_Z (scale_den d1 ex))
      by (unfold Qlt; cbn; lia).
    assert (Q2 : 0 < inject_Z (scale_den d2 ex))
      by (unfold Qlt; cbn; lia).
    set (a1 := inject_Z (scale_den d1 ex)) in *.
    set (a2 := inject_Z (scale_den d2 ex)) in *.
    setoid_replace ((n1 # d1) * pow2 (- ex) * a1 * a2)
      with ((n1 # d1) * (pow2 (- ex) * a1 * a2)) by ring.
    setoid_replace ((n2 # d2) * pow2 (- ex) * a2 * a1)
      with ((n2 # d2) * (pow2 (- ex) * a1 * a2)) by ring.
    apply Qmult_le_compat_r; [exact Hle|].
    apply Qlt_le_weak.
    repeat apply Qmult_lt_0_compat; assumption.
  - (* the larger value has the larger unit: a power of two lies between *)
    assert (Hlt : (ulp_exp n1 d1 < ulp_exp n2 d2)%Z) by (unfold ulp_exp in *; lia).
    assert (E2 : ulp_exp n2 d2 = (ilog2 n2 d2 - 52)%Z) by (unfold ulp_exp in *; lia).
    assert (E1 : (ilog2 n1 d1 + 1 <= ilog2 n2 d2)%Z) by (unfold ulp_exp in *; lia).
    apply Qle_trans with (inject_Z 1 * pow2 (ilog2 n2 d2)).
    + rewrite <- (multiple_refine 1 (ilog2 n2 d2) (ulp_exp n1 d1)) by lia.
      apply round_pos_le.
      rewrite (multiple_refine 1 (ilog2 n2 d2) (ulp_exp n1 d1)) by lia.
      pose proof (pow2_le _ _ E1). change (inject_Z 1) with 1. lra.
    + rewrite <- (multiple_refine 1 (ilog2 n2 d2) (ulp_exp n2 d2)) by lia.
      apply round_pos_ge.
      rewrite (multiple_refine 1 (ilog2 n2 d2) (ulp_exp n2 d2)) by lia.
      change (inject_Z 1) with 1. lra.
Qed.

(** Rounding to nearest is monotone. *)
Theorem round_mono (q1 q2 : Q) : q1 <= q2 -> round q1 <= round q2.
Proof.
  intros Hle.
  destruct (Qlt_le_dec 0 q1) as [P1|N1].
  - (* both positive *)
    destruct q1 as [[|p1|p1] d1]; try (exfalso; unfold Qlt in P1; cbn in P1; lia).
    destruct q2 as [[|p2|p2] d2];
      try (exfalso; unfold Qle in Hle; cbn in Hle; lia).
    unfold round; cbn [Qnum Qden]. apply round_pos_mono; [lia|lia|exact Hle].
  - destruct (Qlt_le_dec q2 0) as [N2|P2].
    + (* both negative *)
      destruct q2 as [[|p2|p2] d2]; try (exfalso; unfold Qlt in N2; cbn in N2; lia).
      destruct q1 as [[|p1|p1] d1];
        try (exfalso; unfold Qle in Hle; cbn in Hle; lia).
      unfold round; cbn [Qnum Qden].
      change (- Z.neg p1)%Z with (Zpos p1). change (- Z.neg p2)%Z with (Zpos p2).
      assert (round_pos (Zpos p2) d2 <= round_pos (Zpos p1) d1); [|lra].
      apply round_pos_mono; [lia|lia|].
      unfold Qle in *. cbn in *. lia.
    + apply Qle_trans with 0; [apply round_nonpos|apply round_nonneg]; assumption.
Qed.

(** *** Canonical form *)

Lemma round_canonical (q : Q) : Qred (round q) = round q.
Proof.
  unfold round. destruct (Qnum q).
  - reflexivity.
  - unfold round_pos. apply Qred_involutive.
  - unfold round_pos. rewrite Qred_opp, Qred_involutive. reflexivity.
Qed.

Lemma Qred_inject_Z (z : Z) : Qred (inject_Z z) = inject_Z z.
Proof. apply Qred_identity. cbn. apply Z.gcd_1_r. Qed.

(** A rounded value equal to an integer is that integer. *)
Lemma round_is_Z (q : Q) (z : Z) : round q == inject_Z z -> round q = inject_Z z.
Proof.
  intros H. rewrite <- round_canonical, <- Qred_inject_Z.
  apply Qred_complete. exact H.
Qed.

(** Integers below [2^53] in magnitude are binary64 values. *)
Lemma round_Z (z : Z) : (Z.abs z < 2 ^ 53)%Z -> round (inject_Z z) = inject_Z z.
Proof.
  intros Hz. apply round_is_Z.
  apply (round_exact _ z 0).
  - rewrite pow2_0. ring.
  - unfold Qlt. cbn. lia.
  - lia.
Qed.

(** *** The rounding error *)

(** The rounded value is within half a unit in the last place. *)
Lemma round_pos_err (n : Z) (d : positive) :
  round_pos n d - pow2 (ulp_exp n d - 1) <= n # d /\
  n # d <= round_pos n d + pow2 (ulp_exp n d - 1).
Proof.
  rewrite round_pos_eq.
  set (ex := ulp_exp n d).
  pose proof (scale_den_pos d ex) as HD.
  destruct (rne_div_spec (scale_num n ex) (scale_den d ex) HD) as [Hs _].
  pose proof (scale_eq n d ex) as HN.
  set (m := rne_div (scale_num n ex) (scale_den d ex)) in *.
  set (N := scale_num n ex) in *. set (D := scale_den d ex) in *.
  assert (A1 : ((2 * m - 1) * D <= 2 * N)%Z) by lia.
  assert (A2 : (2 * N <= (2 * m + 1) * D)%Z) by lia.
  rewrite Zle_Qle, !inject_Z_mult in A1, A2.
  rewrite <- inject_Z_sub, inject_Z_mult in A1.
  rewrite inject_Z_plus, inject_Z_mult in A2.
  change (inject_Z 2) with 2 in A1, A2. change (inject_Z 1) with 1 in A1, A2.
  assert (QD : 0 < inject_Z D) by (unfold Qlt; cbn; lia).
  pose proof (pow2_pos ex) as Hp. pose proof (pow2_pos (- ex)) as Hp'.
  pose proof (pow2_cancel ex) as Hc.
  assert (Hh : pow2 (ex - 1) == pow2 ex * (1 # 2)).
  { unfold Z.sub. rewrite pow2_add. reflexivity. }
  rewrite Hh.
  set (q := n # d) in *. set (p := pow2 ex) in *. set (p' := pow2 (- ex)) in *.
  set (M := inject_Z m) in *. set (Dq := inject_Z D) in *.
  rewrite HN in A1, A2.
  assert (B1 : 2 * M - 1 <= 2 * (q * p')).
  { apply (Qmult_le_r _ _ Dq QD).
    setoid_replace (2 * (q * p') * Dq) with (2 * (q * p' * Dq)) by ring.
    exact A1. }
  assert (B2 : 2 * (q * p') <= 2 * M + 1).
  { apply (Qmult_le_r _ _ Dq QD).
    setoid_replace (2 * (q * p') * Dq) with (2 * (q * p' * Dq)) by ring.
    exact A2. }
  assert (C1 : (2 * M - 1) * p <= 2 * (q * p') * p)
    by (apply Qmult_le_compat_r; [exact B1|lra]).
  assert (C2 : 2 * (q * p') * p <= (2 * M + 1) * p)
    by (apply Qmult_le_compat_r; [exact B2|lra]).
  setoid_replace (2 * (q * p') * p) with (2 * q * (p * p')) in C1 by ring.
  setoid_replace (2 * (q * p') * p) with (2 * q * (p * p')) in C2 by ring.
  rewrite Hc in C1, C2.
  split; lra.
Qed.

Lemma half_ulp_bound (n : Z) (d : positive) :
  (0 < n)%Z ->
  pow2 (ulp_exp n d - 1) <= pow2 (- 53) * (n # d) + pow2 (- 1075).
Proof.
  intros Hn. destruct (ilog2_spec n d Hn) as [Hl _].
  pose proof (pow2_pos (- 53)) as H53. pose proof (pow2_pos (- 1075)) as H1075.
  assert (Hq : 0 < n # d) by (unfold Qlt; cbn; lia).
  unfold ulp_exp.
  destruct (Z.max_spec (ilog2 n d - 52) (- 1074)) as [[_ ->]|[_ ->]].
  - change (-1074 - 1)%Z with (- 1075)%Z.
    assert (0 <= pow2 (- 53) * (n # d))
      by (apply Qmult_le_0_compat; lra). lra.
  - replace (ilog2 n d - 52 - 1)%Z with (- 53 + ilog2 n d)%Z by lia.
    rewrite pow2_add.
    assert (pow2 (- 53) * pow2 (ilog2 n d) <= pow2 (- 53) * (n # d))
      by (apply Qmult_le_l; [exact H53|exact Hl]).
    lra.
Qed.

(** The error of one rounding: relative [2^-53], or absolute [2^-1075] in
    the range of gradual underflow. *)
Theorem round_error (q : Q) :
  Qabs (round q - q) <= pow2 (- 53) * Qabs q + pow2 (- 1075).
Proof.
  pose proof (pow2_pos (- 53)) as H53. pose proof (pow2_pos (- 1075)) as H1075.
  destruct q as [[|p|p] d]; unfold round; cbn [Qnum Qden].
  - assert (Hz : 0 # d == 0) by reflexivity.
    rewrite Hz. change (Qabs (0 - 0)) with 0. change (Qabs 0) with 0. lra.
  - destruct (round_pos_err (Zpos p) d) as [E1 E2].
    pose proof (half_ulp_bound (Zpos p) d ltac:(lia)) as Hb.
    change (Qabs (Zpos p # d)) with (Zpos p # d).
    apply Qabs_Qle_condition. split; lra.
  - destruct (round_pos_err (Zpos p) d) as [E1 E2].
    pose proof (half_ulp_bound (Zpos p) d ltac:(lia)) as Hb.
    change (- Z.neg p)%Z with (Zpos p).
    change (Qabs (Z.neg p # d)) with (Zpos p # d).
    assert (En : Z.neg p # d == - (Zpos p # d)) by reflexivity.
    rewrite En.
    apply Qabs_Qle_condition. split; lra.
Qed.

End Rounding.

(** The rounding of this development and the binary64 operations of the
    standard library's specification of IEEE 754 agree, in the normal range,
    on a tie and in the range of gradual underflow. *)
Example round_agrees_with_SpecFloat :
  let third := SFdiv 53 1024 sf_one sf_three in
  let tenth := SFdiv 53 1024 sf_one sf_ten in
  SF2Q tenth = Double.div 1 10 /\
  SF2Q third = Double.div 1 3 /\
  SF2Q (SFmul 53 1024 third tenth) = Double.mul (SF2Q third) (SF2Q tenth) /\
  SF2Q (SFadd 53 1024 third tenth) = Double.add (SF2Q third) (SF2Q tenth) /\
  SF2Q (SFsub 53 1024 third tenth) = Double.sub (SF2Q third) (SF2Q tenth) /\
  SF2Q (SFdiv 53 1024 sf_least sf_three) = Double.div (SF2Q sf_least) 3 /\
  SF2Q (SFdiv 53 1024 sf_three_least sf_two)
    = Double.div (SF2Q sf_three_least) 2 /\
  SF2Q (SFmul 53 1024 sf_three_least third)
    = Double.mul (SF2Q sf_three_least) (SF2Q third).
Proof. repeat split; vm_compute; reflexivity. Qed.

(** ** The progress ratio *)

Lemma of_Z_nonneg (z : Z) : 0 <= z -> (0 <= Double.of_Z z)%Q.
Proof.
  intros H. apply Rounding.round_nonneg. unfold Qle. cbn. lia.
Qed.

Lemma of_Z_mono (a b : Z) : a <= b -> (Double.of_Z a <= Double.of_Z b)%Q.
Proof.
  intros H. apply Rounding.round_mono. rewrite <- Zle_Qle. exact H.
Qed.

Lemma of_Z_one : Double.of_Z 1 = 1%Q.
Proof. reflexivity. Qed.

(** While the count is within the total, the ratio of [ShowProgress] is
    within [0, 1]. *)
Lemma ratio_of_bounds (p t : Z) :
  0 <= p <= t -> (0 <= ratio_of p t <= 1)%Q.
Proof.
  intros Hp. unfold ratio_of.
  destruct (Z.eqb_spec t 0) as [E|E]; [split; discriminate|].
  pose proof (of_Z_nonneg p ltac:(lia)) as P0.
  pose proof (of_Z_mono p t ltac:(lia)) as Ple.
  pose proof (of_Z_mono 1 t ltac:(lia)) as T1. rewrite of_Z_one in T1.
  set (a := Double.of_Z p) in *. set (b := Double.of_Z t) in *.
  assert (Hq : (0 <= a / b <= 1)%Q).
  { split.
    - apply Qle_shift_div_l; lra.
    - apply Qle_shift_div_r; lra. }
  unfold Double.div. split.
  - apply Rounding.round_nonneg. apply Hq.
  - replace 1%Q with (inject_Z 1 * Double.pow2 0)%Q by reflexivity.
    apply Rounding.round_le.
    + change (inject_Z 1 * Double.pow2 0)%Q with 1%Q. apply Hq.
    + rewrite Qabs_pos by apply Hq.
      apply Qle_lt_trans with 1%Q; [apply Hq|reflexivity].
    + lia.
Qed.

Section Ratio.

Variable libm_log10 : Q -> Q.

Lemma ShowProgress_no_ratio_fault (e : env) (p : Z) (b : ProgressBar) :
  0 <= p <= total_ b ->
  result_of (ShowProgress libm_log10 e p b) <> Fault RatioAssert.
Proof.
  intros Hp. unfold ShowProgress.
  destruct (ratio_of_bounds p (total_ b) Hp) as [R0 R1].
  generalize dependent (ratio_of p (total_ b)). intros ratio R0 R1.
  apply Qle_bool_iff in R0. apply Qle_bool_iff in R1.
  unfold Double.leb. rewrite R0, R1. cbn [negb].
  destruct (BeautifyDuration_silent (RemainingExecutionTime e b ratio))
    as (r1 & E1 & F1).
  destruct (BeautifyDuration_silent
              (RemainingExecutionTime e (set_buffer "" b) ratio))
    as (r2 & E2 & F2).
  rewrite E1, E2. clear E1 E2.
  destruct (silent_ b); [discriminate|].
  destruct (logging_mode_ b).
  - destruct r1 as [s|f1]; step; [discriminate|].
    rewrite (F1 f1 eq_refl). discriminate.
  - destruct (GetBarLength _ _ _) as [bar|]; step; [|discriminate].
    destruct (bar <? 1); step; [discriminate|].
    destruct (Double.to_size_t _) as [filled|]; step; [|discriminate].
    destruct r2 as [s|f2]; step; [discriminate|].
    rewrite (F2 f2 eq_refl). discriminate.
Qed.

(** A ratio outside [0, 1] stops [ShowProgress] at its assertion. *)
Lemma ShowProgress_ratio_fault (e : env) (p : Z) (b : ProgressBar) :
  silent_ b = false ->
  ~ (0 <= ratio_of p (total_ b) <= 1)%Q ->
  ShowProgress libm_log10 e p b = ([Render p], Fault RatioAssert).
Proof.
  intros Hs Hr. unfold ShowProgress. rewrite Hs.
  generalize dependent (ratio_of p (total_ b)). intros ratio Hr.
  unfold Double.leb.
  destruct (Qle_bool 0 ratio) eqn:E0; [|reflexivity].
  destruct (Qle_bool ratio 1) eqn:E1; [|reflexivity].
  exfalso. apply Hr. split; apply Qle_bool_iff; assumption.
Qed.

Lemma keeps_ret (b b' : ProgressBar) :
  bounded b' -> total_ b' = total_ b -> keeps b (ret b').
Proof.
  intros Hb Ht. unfold keeps. cbn. split; [tauto|]. split; [discriminate|].
  intros b2 H. injection H as <-. split; assumption.
Qed.

Lemma keeps_fail (b : ProgressBar) (f : fault) :
  f <> RatioAssert -> keeps b (fail f).
Proof.
  intros Hf. unfold keeps. cbn. split; [tauto|]. split; [congruence|discriminate].
Qed.

Lemma add_assign_keeps (e : env) (delta : Z) (b : ProgressBar) :
  bounded b -> keeps b (add_assign libm_log10 e delta b).
Proof.
  intros Hb. unfold keeps.
  destruct (started_fields e b) as (Es & Et & Ep & Ef).
  destruct (silent_ b) eqn:Hs.
  { rewrite add_assign_silent by exact Hs.
    apply keeps_ret; [unfold bounded in *; rewrite Et, Ep; exact Hb|exact Et]. }
  destruct (Z.eq_dec delta 0) as [->|Hd].
  { assert (E : add_assign libm_log10 e 0 b = ([], Done (started e b))).
    { unfold add_assign. fold (started e b). rewrite Es. reflexivity. }
    rewrite E.
    apply keeps_ret; [unfold bounded in *; rewrite Et, Ep; exact Hb|exact Et]. }
  rewrite add_assign_unfold by assumption. cbv zeta.
  set (after := Int.wrap64 (progress_ b + delta)).
  pose proof (wrap64_range (progress_ b + delta)) as Ha. fold after in Ha.
  set (b1 := set_progress after (started e b)).
  assert (Hs1 : silent_ b1 = false) by (cbn; exact Es).
  destruct (negb (after <=? total_ b)) eqn:Eo;
    [apply keeps_fail; discriminate|].
  apply negb_false_iff, Z.leb_le in Eo.
  assert (Hshown :
    let shown :=
      b2 <- ShowProgress libm_log10 e after b1 ;;
      (if after =? total_ b2 then emit (Write LF) else ret tt) ;;; ret b2 in
    (forall p, In p (renders (trace_of shown)) -> 0 <= p <= total_ b) /\
    result_of shown <> Fault RatioAssert /\
    (forall b', result_of shown = Done b' -> bounded b' /\ total_ b' = total_ b)).
  { intros shown.
    destruct (shown_frame libm_log10 e after b1 Hs1) as [Hr Hd'].
    fold shown in Hr, Hd'. rewrite Hr.
    split; [intros p [<-|[]]; lia|]. split.
    - subst shown.
      pose proof (ShowProgress_no_ratio_fault e after b1) as HF.
      destruct (ShowProgress libm_log10 e after b1) as [t [b2|f]]; step.
      + destruct (after =? total_ b2); step; discriminate.
      + intros H. injection H as ->. apply HF; [|reflexivity].
        cbn. rewrite Et. lia.
    - intros b' H.
      destruct (redrawn_fields b1 b' (Hd' b' H)) as (_ & Et' & Ep' & _).
      unfold bounded. rewrite Et', Ep'. cbn. rewrite Et. lia. }
  destruct (after =? total_ b); [exact Hshown|].
  destruct (frequency_update b =? 0);
    [apply keeps_fail; discriminate|].
  destruct (_ <? _); [exact Hshown|].
  apply keeps_ret; [unfold bounded; cbn; lia|exact Et].
Qed.

Lemma perform_keeps (c : call) (b : ProgressBar) :
  bounded b -> keeps b (perform libm_log10 c b).
Proof.
  intros Hb. destruct c as [e delta|e|n|u s]; cbn [perform].
  - apply add_assign_keeps. exact Hb.
  - apply add_assign_keeps. exact Hb.
  - apply keeps_ret; unfold SetFrequencyUpdate;
      destruct (total_ b <? n); exact Hb || reflexivity.
  - apply keeps_ret; [exact Hb|reflexivity].
Qed.

Lemma drive_keeps (cs : list call) (b : ProgressBar) :
  bounded b -> keeps b (drive libm_log10 cs b).
Proof.
  revert b. induction cs as [|c cs IH]; intros b Hb.
  - apply keeps_ret; [exact Hb|reflexivity].
  - cbn [drive].
    destruct (perform_keeps c b Hb) as (Hr & Hf & Hd).
    destruct (perform libm_log10 c b) as [t [b1|f]];
      cbn [trace_of result_of fst snd] in *.
    + destruct (Hd b1 eq_refl) as [Hb1 Ht1].
      destruct (IH b1 Hb1) as (Hr' & Hf' & Hd'). rewrite Ht1 in *.
      rewrite bind_done. unfold keeps. cbn [trace_of result_of fst snd].
      split; [|split]; try assumption.
      intros p Hin. rewrite renders_app in Hin.
      apply in_app_or in Hin. destruct Hin; auto.
    + rewrite bind_fault. unfold keeps. cbn [trace_of result_of fst snd].
      split; [exact Hr|]. split; [exact Hf|discriminate].
Qed.

End Ratio.

Section RatioLifetime.

Variable libm_log10 : Q -> Q.

Lemma construct_keeps (raw : ProgressBar) (e : env) (total : Z)
    (description : string) (tty silent : bool) :
  0 <= total ->
  (forall p, In p (renders (trace_of
       (construct libm_log10 raw e total description tty silent))) ->
     0 <= p <= total) /\
  result_of (construct libm_log10 raw e total description tty silent)
    <> Fault RatioAssert /\
  (forall b,
      result_of (construct libm_log10 raw e total description tty silent)
        = Done b -> bounded b /\ total_ b = total).
Proof.
  intros Ht. destruct silent.
  - unfold construct. cbn. split; [tauto|]. split; [discriminate|].
    intros b H. injection H as <-. unfold bounded. cbn. split; [lia|reflexivity].
  - destruct (construct_frame libm_log10 raw e total description tty)
      as [Hr Hd].
    rewrite Hr. split; [intros p [<-|[]]; lia|]. split.
    + unfold construct. cbv iota.
      match goal with |- context [ShowProgress _ _ _ ?b0] => set (b1 := b0) end.
      assert (Ht1 : total_ b1 = total) by reflexivity.
      match goal with
      | |- context [if logging_mode_ ?x then _ else _] =>
          change (logging_mode_ x) with (negb tty)
      end.
      clearbody b1.
      pose proof (ShowProgress_no_ratio_fault libm_log10 e 0 b1
                    ltac:(rewrite Ht1; lia)) as HF.
      destruct (ShowProgress libm_log10 e 0 b1) as [t [b2|f]];
        cbn [result_of snd] in HF; unfold emit, ret.
      * destruct (negb tty); rewrite !bind_done; cbn [fst snd];
          destruct (progress_ b2 =? total_ b2); rewrite ?bind_done;
          cbn [fst snd result_of]; discriminate.
      * destruct (negb tty); rewrite !bind_done; cbn [fst snd];
          rewrite ?bind_fault; cbn [fst snd result_of]; exact HF.
    + intros b H. destruct (Hd b H) as (_ & Hb & Hp & _).
      unfold bounded. rewrite Hb, Hp. split; [lia|reflexivity].
Qed.

Lemma destruct_bar_keeps (e : env) (b : ProgressBar) :
  bounded b ->
  (forall p, In p (renders (trace_of (destruct_bar libm_log10 e b))) ->
     0 <= p <= total_ b) /\
  result_of (destruct_bar libm_log10 e b) <> Fault RatioAssert.
Proof.
  intros Hb. unfold destruct_bar.
  destruct (negb (progress_ b =? total_ b)); [|cbn; split; [tauto|discriminate]].
  pose proof (ShowProgress_no_ratio_fault libm_log10 e (progress_ b) b Hb) as HF.
  destruct (silent_ b) eqn:Hs.
  - rewrite ShowProgress_silent by exact Hs. rewrite bind_done. cbv beta.
    rewrite Hs. cbn. split; [tauto|discriminate].
  - destruct (ShowProgress_frame libm_log10 e (progress_ b) b Hs) as [Hr Hd].
    destruct (ShowProgress libm_log10 e (progress_ b) b) as [t [b2|f]];
      cbn [trace_of result_of fst snd] in *.
    + rewrite bind_done. cbn [trace_of result_of fst snd].
      destruct (negb (silent_ b2)); cbn; rewrite renders_app, Hr; cbn;
        (split; [intros p [<-|[]]; exact Hb|discriminate]).
    + rewrite bind_fault. cbn [trace_of result_of fst snd]. rewrite Hr.
      split; [intros p [<-|[]]; exact Hb|].
      intros H. apply HF. injection H as ->. reflexivity.
Qed.

End RatioLifetime.

(** C4. In every frame a bar renders, from its construction to its
    destruction and whatever the host calls, the count is within the total and
    the ratio computed from it lies in [0, 1]: the assertion on the ratio
    never fires, the assertion on the counter having stopped every increment
    past the total.  A ratio outside [0, 1] is fatal: [ShowProgress] stops at
    the assertion before it writes anything. *)
Theorem ratio_within_unit_interval
    (libm_log10 : Q -> Q) (raw : ProgressBar) (e0 e1 : env) (total : Z)
    (description : string) (tty silent : bool) (cs : list call) :
  Int.in_u64 total ->
  let run := lifetime libm_log10 raw e0 total description tty silent cs e1 in
  (forall p, In p (renders (trace_of run)) ->
     0 <= p <= total /\ (0 <= ratio_of p total <= 1)%Q) /\
  result_of run <> Fault RatioAssert /\
  (forall (e : env) (p : Z) (b : ProgressBar),
      silent_ b = false -> ~ (0 <= ratio_of p (total_ b) <= 1)%Q ->
      ShowProgress libm_log10 e p b = ([Render p], Fault RatioAssert)).
Proof.
  intros [Ht _] run.
  assert (Hrun : (forall p, In p (renders (trace_of run)) -> 0 <= p <= total) /\
                 result_of run <> Fault RatioAssert).
  { subst run. unfold lifetime, session. rewrite !bind_assoc.
    destruct (construct_keeps libm_log10 raw e0 total description tty silent Ht)
      as (Hr0 & Hf0 & Hd0).
    destruct (construct libm_log10 raw e0 total description tty silent)
      as [t0 [b0|f0]]; cbn [trace_of result_of fst snd] in *;
      [|rewrite bind_fault; cbn [trace_of result_of fst snd];
        split; [assumption|];
        intros H; apply Hf0; injection H as ->; reflexivity].
    destruct (Hd0 b0 eq_refl) as [Hb0 Ht0].
    destruct (drive_keeps libm_log10 cs b0 Hb0) as (Hr1 & Hf1 & Hd1).
    rewrite Ht0 in *.
    rewrite bind_done. cbn [trace_of result_of fst snd].
    destruct (drive libm_log10 cs b0) as [t1 [b1|f1]];
      cbn [trace_of result_of fst snd] in *.
    - destruct (Hd1 b1 eq_refl) as [Hb1 Ht1].
      destruct (destruct_bar_keeps libm_log10 e1 b1 Hb1) as [Hr2 Hf2].
      rewrite Ht1 in *.
      rewrite bind_done. cbn [fst snd].
      split; [|exact Hf2].
      intros p Hin. rewrite !renders_app in Hin.
      apply in_app_or in Hin. destruct Hin as [Hin|Hin]; [auto|].
      apply in_app_or in Hin. destruct Hin; auto.
    - rewrite bind_fault. cbn [fst snd].
      split; [|intros H; apply Hf1; injection H as ->; reflexivity].
      intros p Hin. rewrite !renders_app in Hin.
      apply in_app_or in Hin. destruct Hin; auto. }
  destruct Hrun as [Hr Hf].
  split; [|split; [exact Hf|]].
  - intros p Hin. specialize (Hr p Hin). split; [exact Hr|].
    apply ratio_of_bounds. exact Hr.
  - intros e p b. apply ShowProgress_ratio_fault.
Qed.

Lemma ratio_within_unit_interval_witness :
  (forall p, In p (renders (trace_of
       (lifetime coarse_log10 sample_bar sample_env 10 "work" true false
          (increments sample_increments) sample_env))) ->
     0 <= p <= 10 /\ (0 <= ratio_of p 10 <= 1)%Q) /\
  result_of (lifetime coarse_log10 sample_bar sample_env 10 "work" true false
               (increments sample_increments) sample_env)
    <> Fault RatioAssert /\
  (forall (e : env) (p : Z) (b : ProgressBar),
      silent_ b = false -> ~ (0 <= ratio_of p (total_ b) <= 1)%Q ->
      ShowProgress coarse_log10 e p b = ([Render p], Fault RatioAssert)).
Proof.
  apply (ratio_within_unit_interval coarse_log10 sample_bar sample_env
           sample_env 10 "work" true false (increments sample_increments)).
  unfold Int.in_u64, Int.two64. lia.
Defined.

(** The assertion is not idle: a count past the total gives a ratio above 1
    and stops the renderer. *)
Example ratio_assertion_fires :
  ShowProgress coarse_log10 sample_env 11 sample_bar
  = ([Render 11], Fault RatioAssert).
Proof. vm_compute. reflexivity. Qed.

(** So is the assertion of [operator+=]: an increment past the total stops
    there, before any frame. *)
Example overflow_assertion_fires :
  add_assign coarse_log10 sample_env 7 sample_bar = ([], Fault OverflowAssert).
Proof. vm_compute. reflexivity. Qed.

(** ** The percentage text *)

Lemma length_append (s t : string) :
  String.length (s ++ t) = (String.length s + String.length t)%nat.
Proof. induction s as [|c s IH]; cbn; [reflexivity|rewrite IH; reflexivity]. Qed.

Lemma length_fill (n : nat) (c : ascii) : String.length (Text.fill n c) = n.
Proof. induction n as [|n IH]; cbn; [reflexivity|rewrite IH; reflexivity]. Qed.

Lemma length_pad_left (w : nat) (c : ascii) (s : string) :
  String.length (Text.pad_left w c s) = Nat.max w (String.length s).
Proof. unfold Text.pad_left. rewrite length_append, length_fill. lia. Qed.

(** The decimal text of a number up to 100 has one to three digits, and one
    digit when the number is below 10. *)
Lemma dec_length_small (z : Z) :
  0 <= z <= 100 ->
  (1 <= String.length (Text.dec z) <= 3)%nat /\
  (z <= 9 -> String.length (Text.dec z) = 1%nat).
Proof.
  intros Hz.
  assert (Hall : forallb
            (fun k => let l := String.length (Text.dec (Z.of_nat k)) in
                      (1 <=? l)%nat && (l <=? 3)%nat &&
                      ((9 <? k)%nat || (l =? 1)%nat))
            (seq 0 101) = true) by (vm_compute; reflexivity).
  rewrite forallb_forall in Hall.
  specialize (Hall (Z.to_nat z)).
  rewrite Z2Nat.id in Hall by lia.
  assert (Hin : In (Z.to_nat z) (seq 0 101)) by (apply in_seq; lia).
  specialize (Hall Hin). cbv zeta in Hall.
  apply andb_prop in Hall. destruct Hall as [Hall H9].
  apply andb_prop in Hall. destruct Hall as [H1 H3].
  apply Nat.leb_le in H1. apply Nat.leb_le in H3.
  split; [lia|]. intros Hs.
  apply orb_prop in H9. destruct H9 as [H9|H9].
  - apply Nat.ltb_lt in H9. lia.
  - apply Nat.eqb_eq in H9. exact H9.
Qed.

(** A value between 0 and 100 fills the five columns of ["%5.1f"]. *)
Lemma length_percent (x : Q) :
  (0 <= x <= 100)%Q -> String.length (Text.percent_5_1 x) = 6%nat.
Proof.
  intros [H0 H1]. unfold Text.percent_5_1.
  rewrite length_append, length_pad_left. cbn [String.length].
  assert (Hn : 0 <= Qnum x) by (unfold Qle in H0; cbn in H0; lia).
  assert (Hd : Qnum x <= 100 * Zpos (Qden x))
    by (unfold Qle in H1; cbn in H1; lia).
  unfold Text.fixed1, Text.sign_of.
  replace (Qnum x <? 0) with false by (symmetry; apply Z.ltb_ge; exact Hn).
  rewrite Z.abs_eq by exact Hn.
  set (t := Double.rne_div (Qnum x * 10) (Zpos (Qden x))).
  assert (Ht : 0 <= t <= 1000).
  { split.
    - apply Rounding.rne_div_ge; lia.
    - apply Rounding.rne_div_le; lia. }
  assert (Hq : 0 <= t / 10 <= 100).
  { split; [apply Z.div_pos; lia|]. apply Z.div_le_upper_bound; lia. }
  pose proof (Z.mod_pos_bound t 10 ltac:(lia)) as Hm.
  destruct (dec_length_small (t / 10) Hq) as [Hl _].
  destruct (dec_length_small (t mod 10) ltac:(lia)) as [_ Hl1].
  cbn [append]. rewrite length_append. cbn [String.length].
  rewrite Hl1 by lia. lia.
Qed.

(** The buffer of [get_progress_summary] after [snprintf] and [pop_back]:
    always six characters, and the whole text when the text has six. *)
Lemma summary_buffer_length (text : string) :
  String.length
    (Text.pop_back (Text.snprintf (Text.fill 7 " ") 7 text)) = 6%nat.
Proof.
  destruct text as [|a [|b [|c [|d [|e [|f [|g r]]]]]]]; reflexivity.
Qed.

Lemma summary_buffer_text (text : string) :
  String.length text = 6%nat ->
  Text.pop_back (Text.snprintf (Text.fill 7 " ") 7 text) = text.
Proof.
  destruct text as [|a [|b [|c [|d [|e [|f [|g r]]]]]]];
    try discriminate; reflexivity.
Qed.

Lemma percentage_bounds (progress_ratio : Q) :
  (0 <= progress_ratio <= 1)%Q ->
  (0 <= Double.mul progress_ratio kTotalPercentage <= 100)%Q.
Proof.
  intros [H0 H1]. unfold Double.mul, kTotalPercentage.
  assert (Hx : (0 <= progress_ratio * 100 <= 100)%Q) by lra.
  split.
  - apply Rounding.round_nonneg. apply Hx.
  - replace 100%Q with (inject_Z 100 * Double.pow2 0)%Q at 2 by reflexivity.
    apply Rounding.round_le.
    + change (inject_Z 100 * Double.pow2 0)%Q with 100%Q. apply Hx.
    + rewrite Qabs_pos by apply Hx.
      apply Qle_lt_trans with 100%Q; [apply Hx|reflexivity].
    + lia.
Qed.

(** C2, as the code has it.  For every progress ratio in [0, 1] the
    percentage text is the output of ["%5.1f%%"] for the ratio times 100, and
    has exactly six characters, the ['%'] included: the seven of the source
    is the size given to [snprintf], whose last byte is the terminating NUL
    that [pop_back] removes.  The text has six characters whatever the ratio
    is; a ratio of 0, one half and 1 give ["  0.0%"], [" 50.0%"] and
    ["100.0%"], and a total of zero gives the ratio 1. *)
Theorem percentage_text_has_six_characters (progress_ratio : Q) :
  (0 <= progress_ratio <= 1)%Q ->
  get_progress_summary progress_ratio
    = Text.percent_5_1 (Double.mul progress_ratio kTotalPercentage) /\
  String.length (get_progress_summary progress_ratio) = 6%nat /\
  (forall r, String.length (get_progress_summary r) = 6%nat) /\
  get_progress_summary 0 = "  0.0%"%string /\
  get_progress_summary (1 # 2) = " 50.0%"%string /\
  get_progress_summary 1 = "100.0%"%string /\
  (forall progress, ratio_of progress 0 = 1%Q).
Proof.
  intros Hr.
  pose proof (length_percent _ (percentage_bounds progress_ratio Hr)) as Hl.
  assert (E : get_progress_summary progress_ratio
              = Text.percent_5_1 (Double.mul progress_ratio kTotalPercentage)).
  { unfold get_progress_summary. apply summary_buffer_text. exact Hl. }
  split; [exact E|]. split; [rewrite E; exact Hl|].
  split; [intros r; apply summary_buffer_length|].
  repeat split; reflexivity.
Qed.

Lemma percentage_text_has_six_characters_witness :
  get_progress_summary (1 # 4)
    = Text.percent_5_1 (Double.mul (1 # 4) kTotalPercentage) /\
  String.length (get_progress_summary (1 # 4)) = 6%nat /\
  (forall r, String.length (get_progress_summary r) = 6%nat) /\
  get_progress_summary 0 = "  0.0%"%string /\
  get_progress_summary (1 # 2) = " 50.0%"%string /\
  get_progress_summary 1 = "100.0%"%string /\
  (forall progress, ratio_of progress 0 = 1%Q).
Proof.
  apply (percentage_text_has_six_characters (1 # 4)).
  split; [unfold Qle; cbn; lia|unfold Qle; cbn; lia].
Defined.

(** C2, as the spec has it, fails: at one half the text is [" 50.0%"], six
    characters and not seven. *)
Lemma percentage_text_is_not_seven_characters :
  (0 <= 1 # 2 <= 1)%Q /\ ~ summary_has_seven_characters (1 # 2).
Proof.
  split; [split; unfold Qle; cbn; lia|].
  unfold summary_has_seven_characters. vm_compute. discriminate.
Qed.

(** ** The geometry *)

Lemma trunc_inject_Z (z : Z) : Double.trunc (inject_Z z) = z.
Proof. unfold Double.trunc. cbn. apply Z.quot_1_r. Qed.

Lemma to_int_inject_Z (z : Z) :
  Int.int_min <= z <= Int.int_max -> Double.to_int (inject_Z z) = Some z.
Proof.
  intros [Hl Hh]. unfold Double.to_int, Double.to_integer.
  rewrite trunc_inject_Z.
  apply Z.leb_le in Hl. apply Z.leb_le in Hh. rewrite Hl, Hh. reflexivity.
Qed.

Lemma Qfloor_between (a : Q) (lo hi : Z) :
  (inject_Z lo <= a <= inject_Z hi)%Q -> lo <= Qfloor a <= hi.
Proof.
  intros [Hl Hh]. split.
  - rewrite <- (Qfloor_Z lo). apply Qfloor_resp_le. exact Hl.
  - rewrite <- (Qfloor_Z hi). apply Qfloor_resp_le. exact Hh.
Qed.

Section Geometry.

Variable libm_log10 : Q -> Q.

(** A sane logarithm of a total of 64 bits gives between 1 and 21 digits. *)
Lemma digits_of_total_range (total : Z) :
  (0 <= libm_log10 (Double.of_Z (Z.max 2 total)) <= 20)%Q ->
  exists D, digits_of_total libm_log10 total = inject_Z D /\ 1 <= D <= 21.
Proof.
  intros HL. unfold digits_of_total, Double.floor.
  eexists. split; [reflexivity|].
  apply Qfloor_between. unfold Double.add.
  set (L := libm_log10 _) in *.
  assert (Ha : (Qabs (L + 1) < Double.pow2 (0 + 53))%Q).
  { rewrite Qabs_pos by lra.
    apply Qle_lt_trans with 21%Q; [lra|reflexivity]. }
  split.
  - replace (inject_Z 1) with (inject_Z 1 * Double.pow2 0)%Q by reflexivity.
    apply Rounding.round_ge; [|exact Ha|lia].
    change (inject_Z 1 * Double.pow2 0)%Q with 1%Q. lra.
  - replace (inject_Z 21) with (inject_Z 21 * Double.pow2 0)%Q by reflexivity.
    apply Rounding.round_le; [|exact Ha|lia].
    change (inject_Z 21 * Double.pow2 0)%Q with 21%Q. lra.
Qed.

(** Where the unsigned subtraction does not wrap, [GetBarLength] is the
    width of the spec. *)
Lemma GetBarLength_exact (e : env) (b : ProgressBar) (D : Z) :
  9 + Z.of_nat (String.length (description_ b))
    + Z.of_nat kCharacterWidthPercentage
    <= Z.min (GetConsoleWidth e) kMaxBarWidth ->
  digits_of_total libm_log10 (total_ b) = inject_Z D -> 1 <= D <= 21 ->
  GetBarLength libm_log10 e b
  = Some (Z.min (GetConsoleWidth e) kMaxBarWidth - 9
          - Z.of_nat (String.length (description_ b))
          - Z.of_nat kCharacterWidthPercentage - 2 * D).
Proof.
  intros Hw HD HDr. unfold GetBarLength.
  change (Double.floor (Double.add (libm_log10
            (Double.of_Z (Z.max 2 (total_ b)))) 1))
    with (digits_of_total libm_log10 (total_ b)).
  rewrite HD.
  set (w := Z.min (GetConsoleWidth e) kMaxBarWidth) in *.
  set (len := Z.of_nat (String.length (description_ b))) in *.
  set (k := Z.of_nat kCharacterWidthPercentage) in *.
  assert (Hk : k = 7) by reflexivity.
  assert (Hw120 : w <= 120) by (subst w; unfold kMaxBarWidth; lia).
  assert (Hlen : 0 <= len) by (subst len; lia).
  rewrite (wrap64_small (w - 9 - len)) by (unfold Int.two64; lia).
  rewrite (wrap64_small (w - 9 - len - k)) by (unfold Int.two64; lia).
  unfold Double.of_Z, Double.mul, Double.sub.
  rewrite (Rounding.round_Z (w - 9 - len - k)) by lia.
  rewrite inject_Z_double, (Rounding.round_Z (D * 2)) by lia.
  rewrite inject_Z_sub, Rounding.round_Z by lia.
  rewrite to_int_inject_Z by (unfold Int.int_min, Int.int_max; lia).
  f_equal. lia.
Qed.

End Geometry.

(** C7, as the code has it.  In interactive mode, when the terminal leaves
    room for the fixed parts of the line
    ([9 + len(description) + 7 <= min(consoleWidth, 120)]) and the computed
    bar width is less than 1, no progress line is drawn for the frame: the
    call writes the blanks that erase the text it remembered and a carriage
    return, forgets that text, and returns. *)
Theorem narrow_frame_is_skipped
    (libm_log10 : Q -> Q) (e : env) (p : Z) (b : ProgressBar) :
  silent_ b = false -> logging_mode_ b = false -> 0 <= p <= total_ b ->
  9 + Z.of_nat (String.length (description_ b))
    + Z.of_nat kCharacterWidthPercentage
    <= Z.min (GetConsoleWidth e) kMaxBarWidth ->
  (0 <= libm_log10 (Double.of_Z (Z.max 2 (total_ b))) <= 20)%Q ->
  (bar_width libm_log10 e b < 1)%Q ->
  ShowProgress libm_log10 e p b
  = ([Render p;
      Write (Text.fill (String.length (buffer_ b)) " " ++ CR)],
     Done (set_buffer "" b)).
Proof.
  intros Hs Hl Hp Hw HL Hbar.
  destruct (digits_of_total_range libm_log10 (total_ b) HL) as (D & HD & HDr).
  pose proof (GetBarLength_exact libm_log10 e (set_buffer "" b) D Hw HD HDr)
    as HG.
  cbn [description_ set_buffer] in HG.
  unfold bar_width in Hbar. rewrite HD in Hbar.
  assert (Hz : Z.min (GetConsoleWidth e) kMaxBarWidth - 9
               - Z.of_nat (String.length (description_ b))
               - Z.of_nat kCharacterWidthPercentage - 2 * D < 1).
  { change (2 * inject_Z D)%Q with (inject_Z (2 * D)) in Hbar.
    rewrite inject_Z_sub in Hbar. change 1%Q with (inject_Z 1) in Hbar.
    rewrite <- Zlt_Qlt in Hbar. exact Hbar. }
  unfold ShowProgress. rewrite Hs, Hl.
  destruct (ratio_of_bounds p (total_ b) Hp) as [R0 R1].
  apply Qle_bool_iff in R0. apply Qle_bool_iff in R1.
  unfold Double.leb. rewrite R0, R1. cbn [negb].
  rewrite HG. apply Z.ltb_lt in Hz.
  step. rewrite Hz. reflexivity.
Qed.

Lemma narrow_frame_is_skipped_witness :
  ShowProgress coarse_log10 narrow_env 4 long_bar
  = ([Render 4;
      Write (Text.fill (String.length (buffer_ long_bar)) " " ++ CR)],
     Done (set_buffer "" long_bar)).
Proof.
  apply (narrow_frame_is_skipped coarse_log10 narrow_env 4 long_bar).
  - reflexivity.
  - reflexivity.
  - cbn. lia.
  - vm_compute. discriminate.
  - vm_compute. split; discriminate.
  - vm_compute. reflexivity.
Defined.

(** C7, as the spec has it, fails: a frame whose bar width is below 1 is not
    drawn, yet the text of the frame before is blanked out on the terminal. *)
Lemma narrow_frame_erases_previous_text :
  logging_mode_ long_bar = false /\
  (bar_width coarse_log10 narrow_env long_bar < 1)%Q /\
  written (trace_of (ShowProgress coarse_log10 narrow_env 4 long_bar))
    = ("        " ++ CR)%string /\
  ~ frame_draws_nothing coarse_log10 narrow_env 4 long_bar.
Proof.
  split; [reflexivity|]. split; [vm_compute; reflexivity|].
  split; [vm_compute; reflexivity|].
  intros [Hw _]. vm_compute in Hw. discriminate.
Qed.

(** On a terminal too narrow for the fixed parts of the line the unsigned
    subtraction wraps around, and the conversion of the result, about
    [2^64], to [int] is not defined. *)
Example narrow_terminal_wraps :
  ShowProgress coarse_log10 tiny_env 4 long_bar
  = ([Render 4; Write ("        " ++ CR)], Fault ConversionOutOfRange).
Proof. vm_compute. reflexivity. Qed.

(** ** The duration beautifier *)

Lemma inject_Z_div (x u : Z) :
  0 < u -> (inject_Z x / inject_Z u == x # Z.to_pos u)%Q.
Proof.
  intros Hu. rewrite Qmake_Qdiv. rewrite Z2Pos.id by lia. reflexivity.
Qed.

Lemma trunc_nonneg (a : Q) : (0 <= a)%Q -> Double.trunc a = Qfloor a.
Proof.
  intros Ha. unfold Double.trunc, Qfloor. destruct a as [n d]. cbn.
  apply Z.quot_div_nonneg; [|lia]. unfold Qle in Ha. cbn in Ha. lia.
Qed.

(** The quotient of a [double] holding a whole number by a unit of at most
    [2^17], converted to an integer, is the quotient of the integers: the
    rounding of the division never reaches the next integer. *)
Lemma div_unit (x u : Z) :
  0 <= x -> 0 < u <= 2 ^ 17 -> x / u < 2 ^ 31 ->
  Double.trunc (Double.div (inject_Z x) (inject_Z u)) = x / u.
Proof.
  intros Hx Hu Hk.
  pose proof (Z.div_mod x u ltac:(lia)) as Hdm.
  pose proof (Z.mod_pos_bound x u ltac:(lia)) as Hm.
  assert (Hk0 : 0 <= x / u) by (apply Z.div_pos; lia).
  set (k := x / u) in *. set (r := x mod u) in *.
  set (q := (inject_Z x / inject_Z u)%Q).
  assert (HU : (0 < inject_Z u)%Q) by (unfold Qlt; cbn; lia).
  assert (HU' : (inject_Z u <= 131072)%Q)
    by (change 131072%Q with (inject_Z 131072); rewrite <- Zle_Qle; lia).
  assert (HX : (inject_Z x == inject_Z k * inject_Z u + inject_Z r)%Q).
  { rewrite <- inject_Z_mult, <- inject_Z_plus. rewrite Hdm at 1.
    replace (u * k + r) with (k * u + r) by lia. reflexivity. }
  assert (HR : (0 <= inject_Z r /\ inject_Z r <= inject_Z u - 1)%Q).
  { split.
    - change 0%Q with (inject_Z 0). rewrite <- Zle_Qle. lia.
    - change 1%Q with (inject_Z 1). rewrite inject_Z_sub, <- Zle_Qle. lia. }
  assert (HK : (0 <= inject_Z k /\ inject_Z k <= 2147483647)%Q).
  { split.
    - change 0%Q with (inject_Z 0). rewrite <- Zle_Qle. lia.
    - change 2147483647%Q with (inject_Z (2 ^ 31 - 1)). rewrite <- Zle_Qle.
      lia. }
  assert (Hlo : (inject_Z k <= q)%Q).
  { unfold q. apply Qle_shift_div_l; [exact HU|]. rewrite HX. lra. }
  assert (Hhi : (q <= inject_Z k + 1 - (1 # 131072))%Q).
  { unfold q. apply Qle_shift_div_r; [exact HU|]. rewrite HX.
    assert ((1 # 131072) * inject_Z u <= 1)%Q by lra.
    setoid_replace ((inject_Z k + 1 - (1 # 131072)) * inject_Z u)%Q
      with (inject_Z k * inject_Z u + inject_Z u
            - (1 # 131072) * inject_Z u)%Q by ring.
    lra. }
  assert (Habs : (Qabs q < Double.pow2 (-17 + 53))%Q).
  { rewrite Qabs_pos by lra.
    apply Qlt_trans with 2147483648%Q; [lra|reflexivity]. }
  assert (Rlo : (inject_Z k <= Double.round q)%Q).
  { assert (H : (inject_Z k * Double.pow2 0 <= Double.round q)%Q).
    { apply Rounding.round_ge; [rewrite Rounding.pow2_0; lra| |lia].
      eapply Qlt_trans; [exact Habs|reflexivity]. }
    rewrite Rounding.pow2_0 in H. lra. }
  assert (Ey : (inject_Z ((k + 1) * 131072 - 1) * Double.pow2 (-17)
                == inject_Z k + 1 - (1 # 131072))%Q).
  { rewrite <- inject_Z_sub, inject_Z_mult, inject_Z_plus.
    change (Double.pow2 (-17)) with (1 # 131072)%Q.
    change (inject_Z 131072) with 131072%Q. change (inject_Z 1) with 1%Q.
    field. }
  assert (Rhi : (Double.round q <= inject_Z k + 1 - (1 # 131072))%Q).
  { rewrite <- Ey. apply Rounding.round_le; [|exact Habs|lia].
    rewrite Ey. exact Hhi. }
  unfold Double.div. fold q.
  rewrite trunc_nonneg by lra.
  assert (Hf : k <= Qfloor (Double.round q)).
  { rewrite <- (Qfloor_Z k). apply Qfloor_resp_le. exact Rlo. }
  assert (Hc : Qfloor (Double.round q) < k + 1).
  { rewrite Zlt_Qlt. apply Qle_lt_trans with (Double.round q);
      [apply Qfloor_le|]. rewrite inject_Z_plus.
    change (inject_Z 1) with 1%Q. lra. }
  lia.
Qed.

(** What is left of a whole number of seconds after [k] units are taken. *)
Lemma sub_unit (x k u : Z) :
  Z.abs x < 2 ^ 53 -> Z.abs k < 2 ^ 53 -> Z.abs (k * u) < 2 ^ 53 ->
  Z.abs (x - k * u) < 2 ^ 53 ->
  Double.sub (inject_Z x) (Double.mul (Double.of_Z k) (inject_Z u))
  = inject_Z (x - k * u).
Proof.
  intros Hx Hk Hku Hr. unfold Double.sub, Double.mul, Double.of_Z.
  rewrite (Rounding.round_Z k) by exact Hk.
  rewrite <- inject_Z_mult, (Rounding.round_Z (k * u)) by exact Hku.
  rewrite inject_Z_sub. apply Rounding.round_Z. exact Hr.
Qed.

Lemma to_integer_of (lo hi : Z) (a : Q) (z : Z) :
  Double.trunc a = z -> lo <= z <= hi -> Double.to_integer lo hi a = Some z.
Proof.
  intros <- [Hl Hh]. unfold Double.to_integer.
  apply Z.leb_le in Hl. apply Z.leb_le in Hh. rewrite Hl, Hh. reflexivity.
Qed.

(** Whole seconds below a minute print as their decimal digits. *)
Lemma general6_seconds (s : Z) :
  0 <= s < 60 -> Text.general6 (inject_Z s) = Text.dec s.
Proof.
  intros Hs.
  assert (Hall : forallb
            (fun k => String.eqb (Text.general6 (inject_Z (Z.of_nat k)))
                                 (Text.dec (Z.of_nat k)))
            (seq 0 60) = true) by (vm_compute; reflexivity).
  rewrite forallb_forall in Hall.
  specialize (Hall (Z.to_nat s)). rewrite Z2Nat.id in Hall by lia.
  apply String.eqb_eq. apply Hall. apply in_seq. lia.
Qed.

Lemma BeautifyDuration_text (d h m : Z) (seconds : string) :
  let dc := negb (d =? 0) in
  let hc := negb (h =? 0) in
  let mc := negb (m =? 0) in
  let w2 (on : bool) (s : string) :=
    if on then Text.pad_left 2 "0" s else s in
  ((if dc then Text.dec d ++ "d" else "") ++
   (if dc || hc then w2 dc (Text.dec h) ++ "h" else "") ++
   (if dc || hc || mc then w2 (dc || hc) (Text.dec m) ++ "m" else "") ++
   w2 (dc || hc || mc) seconds ++ "s")%string
  = duration_text d h m seconds.
Proof.
  unfold duration_text. cbn [units_text orb].
  destruct (d =? 0); destruct (h =? 0); destruct (m =? 0); reflexivity.
Qed.

(** C9, as the code has it.  For a whole number of seconds, [BeautifyDuration]
    gives the days, hours, minutes and seconds from the largest unit to the
    smallest, leaves a unit out while it and all larger ones are zero, pads
    every unit after the first one shown with a zero to two digits, and
    always shows the seconds: 65 s is ["1m05s"], 3661 s is ["1h01m01s"] and
    90065 s is ["1d01h01m05s"].  The seconds are a [double] written in the
    default format of the stream, so a fraction of a second is printed and
    not cut off: 0.25 s is ["0.25s"], and 65.5 s is ["1m5.5s"]. *)
Theorem whole_seconds_beautified (n : Z) :
  0 <= n < 2 ^ 31 * 86400 ->
  BeautifyDuration (inject_Z n)
  = ret (duration_text (n / 86400) (n mod 86400 / 3600) (n mod 3600 / 60)
           (Text.dec (n mod 60))) /\
  BeautifyDuration 65 = ret "1m05s"%string /\
  BeautifyDuration 3661 = ret "1h01m01s"%string /\
  BeautifyDuration 90065 = ret "1d01h01m05s"%string /\
  BeautifyDuration (1 # 4) = ret "0.25s"%string /\
  BeautifyDuration (131 # 2) = ret "1m5.5s"%string.
Proof.
  intros Hn.
  split; [|repeat split; vm_compute; reflexivity].
  set (d := n / 86400).
  set (r1 := n mod 86400).
  assert (Hd : 0 <= d < 2 ^ 31).
  { subst d. split; [apply Z.div_pos; lia|].
    apply Z.div_lt_upper_bound; lia. }
  assert (Hr1 : 0 <= r1 < 86400) by (apply Z.mod_pos_bound; lia).
  assert (E1 : n - d * 86400 = r1).
  { subst d r1. pose proof (Z.div_mod n 86400 ltac:(lia)). lia. }
  set (h := r1 / 3600).
  set (r2 := r1 mod 3600).
  assert (Hh : 0 <= h < 24).
  { subst h. split; [apply Z.div_pos; lia|].
    apply Z.div_lt_upper_bound; lia. }
  assert (Hr2 : 0 <= r2 < 3600) by (apply Z.mod_pos_bound; lia).
  assert (E2 : r1 - h * 3600 = r2).
  { subst h r2. pose proof (Z.div_mod r1 3600 ltac:(lia)). lia. }
  set (m := r2 / 60).
  set (s := r2 mod 60).
  assert (Hm : 0 <= m < 60).
  { subst m. split; [apply Z.div_pos; lia|].
    apply Z.div_lt_upper_bound; lia. }
  assert (Hs : 0 <= s < 60) by (apply Z.mod_pos_bound; lia).
  assert (E3 : r2 - m * 60 = s).
  { subst m s. pose proof (Z.div_mod r2 60 ltac:(lia)). lia. }
  assert (M1 : n mod 3600 = r2).
  { subst r2 r1. symmetry. apply Z.mod_mod_divide. exists 24. reflexivity. }
  assert (M2 : n mod 60 = s).
  { subst s. rewrite <- M1. symmetry. apply Z.mod_mod_divide.
    exists 60. reflexivity. }
  rewrite M1, M2. fold m.
  unfold BeautifyDuration.
  change 86400%Q with (inject_Z 86400).
  change 3600%Q with (inject_Z 3600).
  change 60%Q with (inject_Z 60).
  unfold Double.to_int, Double.to_long.
  rewrite (to_integer_of _ _ _ d)
    by (try apply div_unit; unfold Int.int_min, Int.int_max; fold d; lia).
  cbn [defined]. rewrite bind_ret_l.
  rewrite sub_unit, E1 by lia.
  rewrite (to_integer_of _ _ _ h)
    by (try apply div_unit; unfold Int.long_min, Int.long_max; fold h; lia).
  cbn [defined]. rewrite bind_ret_l.
  rewrite sub_unit, E2 by lia.
  rewrite (to_integer_of _ _ _ m)
    by (try apply div_unit; unfold Int.long_min, Int.long_max; fold m; lia).
  cbn [defined]. rewrite bind_ret_l.
  rewrite sub_unit, E3 by lia.
  rewrite general6_seconds by exact Hs.
  f_equal. apply BeautifyDuration_text.
Qed.

Lemma whole_seconds_beautified_witness :
  BeautifyDuration (inject_Z 7384)
  = ret (duration_text (7384 / 86400) (7384 mod 86400 / 3600)
           (7384 mod 3600 / 60) (Text.dec (7384 mod 60))) /\
  BeautifyDuration 65 = ret "1m05s"%string /\
  BeautifyDuration 3661 = ret "1h01m01s"%string /\
  BeautifyDuration 90065 = ret "1d01h01m05s"%string /\
  BeautifyDuration (1 # 4) = ret "0.25s"%string /\
  BeautifyDuration (131 # 2) = ret "1m5.5s"%string.
Proof.
  apply (whole_seconds_beautified 7384). lia.
Defined.

(** C9, as the spec has it, fails at its last example: a quarter of a second
    is written ["0.25s"], not ["0s"]. *)
Lemma quarter_second_keeps_its_fraction :
  result_of (BeautifyDuration (1 # 4)) = Done "0.25s"%string /\
  result_of (BeautifyDuration (1 # 4)) <> Done "0s"%string.
Proof.
  split; [vm_compute; reflexivity|]. vm_compute. discriminate.
Qed.

(** A remaining time of more than [2^31] days cannot be converted to the
    [int] that counts the days. *)
Example huge_duration_is_undefined :
  BeautifyDuration (inject_Z (10 ^ 18)) = fail ConversionOutOfRange.
Proof. vm_compute. reflexivity. Qed.

(** ** The remaining time *)


(** The error of the four roundings of [RemainingExecutionTime], each of
    relative size [u] or absolute size [eta]. *)
Lemma extrapolation_error (u eta r d a ts p res : Q) :
  (0 <= u <= 1 # 8)%Q -> (0 <= eta)%Q -> (0 < r <= 1)%Q -> (0 <= d)%Q ->
  (0 <= a)%Q -> (0 <= ts)%Q ->
  (Qabs (a - / r) <= u * / r + eta)%Q ->
  (Qabs (ts - a * d) <= u * (a * d) + eta)%Q ->
  (Qabs (p - r * ts) <= u * (r * ts) + eta)%Q ->
  (Qabs (res - (ts - p)) <= u * Qabs (ts - p) + eta)%Q ->
  (Qabs (res - (d / r - d)) <= 8 * u * (d / r) + eta * (4 * d + 8))%Q.
Proof.
  intros Hu He Hr Hd Ha Hts H1 H2 H3 H4.
  assert (HI : (1 <= / r)%Q).
  { apply Qle_shift_inv_l; lra. }
  assert (HrI : (r * / r == 1)%Q) by (apply Qmult_inv_r; lra).
  set (I := (/ r)%Q) in *.
  assert (HE : (d / r == I * d)%Q) by (unfold Qdiv, I; ring).
  rewrite HE. set (E := (I * d)%Q) in *.
  assert (HEd : (d <= E)%Q) by (unfold E; nra).
  assert (HrE : (r * E == d)%Q).
  { unfold E. setoid_replace (r * (I * d))%Q with (r * I * d)%Q by ring.
    rewrite HrI. ring. }
  apply Qabs_Qle_condition in H1. apply Qabs_Qle_condition in H2.
  apply Qabs_Qle_condition in H3.
  (* the product a * d *)
  assert (P1 : (E - u * E - eta * d <= a * d <= E + u * E + eta * d)%Q).
  { unfold E. split; nra. }
  set (X := (a * d)%Q) in *.
  assert (HX : (0 <= X)%Q) by (unfold X; nra).
  set (uE := (u * E)%Q) in *. set (ed := (eta * d)%Q) in *.
  assert (HuE : (0 <= uE)%Q) by (unfold uE; nra).
  assert (Hed : (0 <= ed)%Q) by (unfold ed; nra).
  assert (PuX : (u * X <= uE + (1 # 8) * uE + (1 # 8) * ed)%Q).
  { unfold uE, ed in *. nra. }
  assert (HuX : (0 <= u * X)%Q) by nra.
  set (uX := (u * X)%Q) in *.
  (* the extrapolated total *)
  set (A := ((17 # 8) * uE + (9 # 8) * ed + eta)%Q).
  assert (PA : (E - A <= ts <= E + A)%Q) by (unfold A; split; lra).
  assert (HA : (0 <= A)%Q) by (unfold A; lra).
  (* the product r * ts *)
  assert (P2 : (d - A <= r * ts <= d + A)%Q).
  { rewrite <- HrE. split; nra. }
  set (Y := (r * ts)%Q) in *.
  assert (HY : (0 <= Y)%Q) by (unfold Y; nra).
  assert (PuY : (u * Y <= uE + (1 # 8) * A)%Q).
  { assert (u * Y <= u * (d + A))%Q by nra.
    assert (u * d <= uE)%Q by (unfold uE; nra).
    assert (u * A <= (1 # 8) * A)%Q by nra.
    nra. }
  assert (HuY : (0 <= u * Y)%Q) by nra.
  set (uY := (u * Y)%Q) in *.
  set (B := (uE + (9 # 8) * A + eta)%Q).
  assert (PB : (d - B <= p <= d + B)%Q) by (unfold B; split; lra).
  (* the difference *)
  assert (PT : (Qabs (ts - p) <= A + B + E)%Q).
  { apply Qabs_Qle_condition. unfold B in *. split; lra. }
  assert (HT : (0 <= Qabs (ts - p))%Q) by apply Qabs_nonneg.
  set (T := Qabs (ts - p)) in *.
  assert (PuT : (u * T <= uE + (1 # 8) * (A + B))%Q).
  { assert (u * T <= u * (A + B + E))%Q by nra.
    assert (0 <= A + B)%Q by (unfold B; lra).
    assert (u * (A + B) <= (1 # 8) * (A + B))%Q by nra.
    unfold uE. nra. }
  assert (HuT : (0 <= u * T)%Q) by nra.
  set (uT := (u * T)%Q) in *.
  apply Qabs_Qle_condition in H4.
  apply Qabs_Qle_condition.
  assert (Hfin : ((9 # 8) * (A + B) + uE + eta
                  <= 8 * uE + (4 * ed + 8 * eta))%Q).
  { unfold B, A. lra. }
  setoid_replace (8 * u * E)%Q with (8 * uE)%Q by (unfold uE; ring).
  setoid_replace (eta * (4 * d + 8))%Q with (4 * ed + 8 * eta)%Q
    by (unfold ed; ring).
  unfold B in *. split; lra.
Qed.

Lemma round_error_nonneg (q : Q) :
  (0 <= q)%Q ->
  (Qabs (Double.round q - q)
   <= Double.pow2 (- 53) * q + Double.pow2 (- 1075))%Q.
Proof.
  intros Hq. pose proof (Rounding.round_error q) as H.
  rewrite (Qabs_pos q Hq) in H. exact H.
Qed.

(** The body of [RemainingExecutionTime] on a ratio that is not zero. *)
Lemma remaining_error (d r : Q) :
  (0 <= d)%Q -> (0 < r <= 1)%Q ->
  (Qabs (Double.sub (Double.mul (Double.div 1 r) d)
                    (Double.mul r (Double.mul (Double.div 1 r) d))
         - (d / r - d))
   <= Double.pow2 (- 50) * (d / r) + Double.pow2 (- 1073) * (d + 2))%Q.
Proof.
  intros Hd Hr.
  assert (Hi : (0 <= 1 / r)%Q) by (apply Qle_shift_div_l; lra).
  pose proof (round_error_nonneg (1 / r) Hi) as E1.
  pose proof (Rounding.round_nonneg (1 / r) Hi) as Ha.
  unfold Double.div.
  set (a := Double.round (1 / r)) in *.
  assert (Hinv : (1 / r == / r)%Q) by (unfold Qdiv; ring).
  rewrite Hinv in E1.
  assert (Had : (0 <= a * d)%Q) by (apply Qmult_le_0_compat; assumption).
  pose proof (round_error_nonneg (a * d) Had) as E2.
  pose proof (Rounding.round_nonneg (a * d) Had) as Hts.
  unfold Double.mul at 1 3. 
  set (ts := Double.round (a * d)) in *.
  assert (Hrt : (0 <= r * ts)%Q) by (apply Qmult_le_0_compat; lra).
  pose proof (round_error_nonneg (r * ts) Hrt) as E3.
  unfold Double.mul.
  set (p := Double.round (r * ts)) in *.
  pose proof (Rounding.round_error (ts - p)) as E4.
  unfold Double.sub.
  set (res := Double.round (ts - p)) in *.
  pose proof (extrapolation_error (Double.pow2 (- 53)) (Double.pow2 (- 1075))
                r d a ts p res) as H.
  assert (Hu : (0 <= Double.pow2 (- 53) <= 1 # 8)%Q)
    by (split; unfold Qle; vm_compute; discriminate).
  assert (He : (0 <= Double.pow2 (- 1075))%Q)
    by (apply Qlt_le_weak, Rounding.pow2_pos).
  specialize (H Hu He Hr Hd Ha Hts E1 E2 E3 E4).
  assert (E50 : (8 * Double.pow2 (- 53) == Double.pow2 (- 50))%Q)
    by (vm_compute; reflexivity).
  assert (E1073 : (4 * Double.pow2 (- 1075) == Double.pow2 (- 1073))%Q)
    by (vm_compute; reflexivity).
  setoid_replace (Double.pow2 (- 50) * (d / r))%Q
    with (8 * Double.pow2 (- 53) * (d / r))%Q by (rewrite E50; reflexivity).
  setoid_replace (Double.pow2 (- 1073) * (d + 2))%Q
    with (Double.pow2 (- 1075) * (4 * d + 8))%Q by (rewrite <- E1073; ring).
  exact H.
Qed.

Lemma elapsed_seconds_nonneg (now start : Z) :
  start <= now -> (0 <= elapsed_seconds now start)%Q.
Proof.
  intros H. unfold elapsed_seconds, Double.div.
  apply Rounding.round_nonneg.
  apply Qle_shift_div_l; [reflexivity|].
  rewrite Qmult_0_l. apply of_Z_nonneg. lia.
Qed.

Lemma remaining_after_with (elapsed progress_ratio : Q) :
  remaining_after elapsed progress_ratio
  = remaining_with Double.round elapsed progress_ratio.
Proof. reflexivity. Qed.

Lemma remaining_exact (elapsed progress_ratio : Q) :
  (remaining_with (fun q => q) elapsed progress_ratio
   == remaining_spec elapsed progress_ratio)%Q.
Proof.
  unfold remaining_with, remaining_spec, extrapolated_total, floored_ratio.
  destruct (Qeq_bool progress_ratio 0) eqn:Ez.
  - field; try discriminate.
  - apply Qeq_bool_neq in Ez. field; exact Ez.
Qed.

(** C6. [RemainingExecutionTime] returns the extrapolated total less the
    elapsed time, where the extrapolated total is the elapsed time over the
    ratio and a ratio of exactly 0 is replaced by 0.01.  In exact arithmetic
    its expression is that difference; the value it computes in binary64,
    with four rounded operations and the [double] nearest to 0.01, is within
    [2^-49] of the extrapolated total (and a term below the smallest
    [double]) of it.  The bounds on the ratio and the clock keep the
    quotients within the range of binary64. *)
Theorem remaining_time_is_extrapolation
    (e : env) (b : ProgressBar) (progress_ratio : Q) :
  start_time_ b <= now_eta e -> now_eta e - start_time_ b < 2 ^ 63 ->
  (0 <= progress_ratio <= 1)%Q ->
  (progress_ratio == 0 \/ Double.pow2 (- 64) <= progress_ratio)%Q ->
  let elapsed := elapsed_seconds (now_eta e) (start_time_ b) in
  (0 <= elapsed)%Q /\
  RemainingExecutionTime e b progress_ratio
    = remaining_with Double.round elapsed progress_ratio /\
  (remaining_with (fun q => q) elapsed progress_ratio
   == remaining_spec elapsed progress_ratio)%Q /\
  (Qabs (RemainingExecutionTime e b progress_ratio
         - remaining_spec elapsed progress_ratio)
   <= Double.pow2 (- 49) * extrapolated_total elapsed progress_ratio
      + Double.pow2 (- 1073) * (elapsed + 2))%Q.
Proof.
  intros Hclock _ Hr _ elapsed.
  pose proof (elapsed_seconds_nonneg _ _ Hclock) as Hd. fold elapsed in Hd.
  split; [exact Hd|]. split; [reflexivity|].
  split; [apply remaining_exact|].
  unfold RemainingExecutionTime. fold elapsed.
  unfold remaining_after, remaining_spec, extrapolated_total, floored_ratio,
    Double.eqb.
  generalize dependent elapsed. intros d Hd.
  destruct (Qeq_bool progress_ratio 0) eqn:Ez.
  - (* the ratio is 0: the code divides by the double nearest to 0.01 *)
    set (c := Double.lit (1 # 100)).
    assert (Hc : (0 < c <= 1)%Q) by (split; vm_compute; congruence).
    pose proof (remaining_error d c Hd Hc) as H.
    assert (Ec : (d / c == d * / c)%Q) by reflexivity.
    assert (Es : (d / (1 # 100) == d * 100)%Q) by (unfold Qdiv; reflexivity).
    assert (K1 : (/ c <= 100)%Q) by (vm_compute; discriminate).
    assert (K2 : (100 - 100 * Double.pow2 (- 52) <= / c)%Q)
      by (vm_compute; discriminate).
    assert (E50 : (Double.pow2 (- 50) == 4 * Double.pow2 (- 52))%Q)
      by (vm_compute; reflexivity).
    assert (E49 : (Double.pow2 (- 49) == 8 * Double.pow2 (- 52))%Q)
      by (vm_compute; reflexivity).
    pose proof (Rounding.pow2_pos (- 52)) as H52.
    pose proof (Rounding.pow2_pos (- 1073)) as H1073.
    rewrite Ec, E50 in H. rewrite Es, E49.
    apply Qabs_Qle_condition in H. apply Qabs_Qle_condition.
    set (u := Double.pow2 (- 52)) in *.
    set (K := (/ c)%Q) in *.
    set (eta := Double.pow2 (- 1073)) in *.
    set (res := Double.sub _ _) in *.
    assert (Hu : (u <= 1 # 8)%Q) by (vm_compute; discriminate).
    clearbody res K eta u. clear Ec Es E50 E49 Hc c.
    assert (HK : (0 <= K)%Q) by lra.
    assert (P1 : (0 <= d * K <= d * 100)%Q) by (split; nra).
    assert (P2 : (d * 100 - d * K <= 100 * (u * d))%Q) by nra.
    assert (P3 : (0 <= u * (d * K) <= u * (d * 100))%Q) by (split; nra).
    assert (P4 : (0 <= u * d)%Q) by nra.
    split; nra.
  - (* the ratio is not 0 *)
    assert (Hpos : (0 < progress_ratio)%Q).
    { destruct Hr as [H0 _]. apply Qle_lt_or_eq in H0.
      destruct H0 as [H0|H0]; [exact H0|].
      exfalso. apply Qeq_bool_neq in Ez. apply Ez. symmetry. exact H0. }
    pose proof (remaining_error d progress_ratio Hd (conj Hpos (proj2 Hr))) as H.
    assert (HE : (0 <= d / progress_ratio)%Q)
      by (apply Qle_shift_div_l; lra).
    assert (E49 : (Double.pow2 (- 49) == 2 * Double.pow2 (- 50))%Q)
      by (vm_compute; reflexivity).
    pose proof (Rounding.pow2_pos (- 50)) as H50.
    assert (0 <= Double.pow2 (- 50) * (d / progress_ratio))%Q
      by (apply Qmult_le_0_compat; lra).
    rewrite E49. lra.
Qed.

Lemma remaining_time_is_extrapolation_witness :
  let elapsed :=
    elapsed_seconds (now_eta sample_env) (start_time_ sample_bar) in
  (0 <= elapsed)%Q /\
  RemainingExecutionTime sample_env sample_bar (2 # 5)
    = remaining_with Double.round elapsed (2 # 5) /\
  (remaining_with (fun q => q) elapsed (2 # 5)
   == remaining_spec elapsed (2 # 5))%Q /\
  (Qabs (RemainingExecutionTime sample_env sample_bar (2 # 5)
         - remaining_spec elapsed (2 # 5))
   <= Double.pow2 (- 49) * extrapolated_total elapsed (2 # 5)
      + Double.pow2 (- 1073) * (elapsed + 2))%Q.
Proof.
  apply (remaining_time_is_extrapolation sample_env sample_bar (2 # 5)).
  - cbn. lia.
  - cbn. lia.
  - split; unfold Qle; cbn; lia.
  - right. vm_compute. discriminate.
Defined.

(** Ten seconds into the work, at one half and at nothing done. *)
Example remaining_time_samples :
  RemainingExecutionTime sample_env sample_bar (1 # 2) = 10%Q /\
  RemainingExecutionTime sample_env sample_bar 0 = 990%Q /\
  remaining_spec 10 (1 # 2) = 10%Q /\ (remaining_spec 10 0 == 990)%Q.
Proof. repeat split; vm_compute; reflexivity. Qed.
